(** * Phaser tweens: the per-property timing unit [BaseTweenData]

    A shallow embedding of [src/tweens/tween/BaseTweenData.js] and proofs of
    properties of its state machine and duration accounting.

    Conventions of the embedding.
    - JavaScript numbers are modelled as exact rationals ([Qc], canonical
      fractions with Leibniz equality). The properties below concern
      comparisons and field arithmetic, not rounding.
    - A unit, the tween that owns it (a shared object the unit writes to) and
      the calls the unit makes to its environment form a [World] which every
      method transforms. A method is an [Action]; it either returns the next
      world or raises a [TypeError], as the JavaScript does when it
      dereferences a target or a toggle that is not there.
    - [trace] is an observation log: it records every state-setter call,
      every dispatched notification and every toggle call, the most recent
      first. *)

From Stdlib Require Import QArith Qcanon Lqa Lia.
From stdpp Require Import base option list gmap strings.

Open Scope Qc_scope.

(** ** Numbers *)

Abbreviation Num := Qc.

Definition num_ltb (a b : Num) : bool := negb (Qle_bool b a).
Definition num_leb (a b : Num) : bool := Qle_bool a b.
Definition num_eqb (a b : Num) : bool := Qc_eq_bool a b.

Definition num_of_nat (n : nat) : Num := Q2Qc (inject_Z (Z.of_nat n)).

(** ** Targets and the owning tween *)

(** A target is a JavaScript object: numeric properties addressed by name
    and, optionally, the two toggle methods, which act on the object's own
    properties. *)
Module Target.
Record t := mk {
  props : gmap string Num;
  toggleFlipX : option (gmap string Num -> gmap string Num);
  toggleFlipY : option (gmap string Num -> gmap string Num)
}.
Definition set_props (p : gmap string Num) (x : t) : t :=
  mk p (toggleFlipX x) (toggleFlipY x).
End Target.

(** The fields of the owning tween that [BaseTweenData] reads or writes. *)
Module Tween.
Record t := mk {
  targets : list Target.t;
  totalTargets : nat;
  duration : Num;
  startDelay : Num;
  isInfinite : bool
}.
Definition set_targets (v : list Target.t) (x : t) : t :=
  mk v (totalTargets x) (duration x) (startDelay x) (isInfinite x).
Definition set_duration (v : Num) (x : t) : t :=
  mk (targets x) (totalTargets x) v (startDelay x) (isInfinite x).
Definition set_startDelay (v : Num) (x : t) : t :=
  mk (targets x) (totalTargets x) (duration x) v (isInfinite x).
Definition set_isInfinite (v : bool) (x : t) : t :=
  mk (targets x) (totalTargets x) (duration x) (startDelay x) v.
End Tween.

(** Modelled from the spec: the state constants of [TWEEN_CONST]
    ([tweens/tween/const.js] is not part of the sources at hand); the spec
    names the states [Created, Delay, PendingRender, PlayingForward,
    PlayingBackward, HoldDelay, RepeatDelay, Complete], with [Created] the
    initial one. *)
Inductive StateType :=
| CREATED | DELAY | PENDING_RENDER | PLAYING_FORWARD | PLAYING_BACKWARD
| HOLD_DELAY | REPEAT_DELAY | COMPLETE.

#[global] Instance StateType_eq_dec : EqDecision StateType.
Proof. solve_decision. Defined.

(** The two notifications [onRepeat] dispatches ([Events.TWEEN_YOYO] and
    [Events.TWEEN_REPEAT]). *)
Inductive Event := TWEEN_YOYO | TWEEN_REPEAT.

#[global] Instance Event_eq_dec : EqDecision Event.
Proof. solve_decision. Defined.

(** Resolver callbacks have the signature
    [(target, key, value, targetIndex, totalTargets, tween)]; the target is
    [None] when [tween.targets[targetIndex]] is [undefined]. *)
Definition Resolver : Type :=
  option Target.t -> string -> Num -> nat -> nat -> Tween.t -> Num.

(** ** The unit *)

(** The fields from [targetIndex] to [isCountdown] are those the
    constructor of [BaseTweenData] declares. The remaining ones ([key],
    [start], [end], [current], the two value resolvers and [ease]) are
    declared by the classes that extend it; the methods of [BaseTweenData]
    read and write them on [this]. *)
Record BaseTweenData := mkBaseTweenData {
  targetIndex : nat;
  duration : Num;
  totalDuration : Num;
  delay : Num;
  getDelay : Resolver;
  yoyo : bool;
  hold : Num;
  repeat : Num;
  repeatDelay : Num;
  repeatCounter : Num;
  flipX : bool;
  flipY : bool;
  progress : Num;
  elapsed : Num;
  state : StateType;
  isCountdown : bool;
  key : string;
  start : Num;
  end_ : Num;
  current : Num;
  getStartValue : Resolver;
  getEndValue : Resolver;
  ease : Num -> Num
}.

Definition set_totalDuration (v : Num) (d : BaseTweenData) : BaseTweenData :=
  mkBaseTweenData
    (targetIndex d) (duration d) v (delay d) (getDelay d) (yoyo d) (hold d)
    (repeat d) (repeatDelay d) (repeatCounter d) (flipX d) (flipY d)
    (progress d) (elapsed d) (state d) (isCountdown d) (key d) (start d)
    (end_ d) (current d) (getStartValue d) (getEndValue d) (ease d).

Definition set_delay (v : Num) (d : BaseTweenData) : BaseTweenData :=
  mkBaseTweenData
    (targetIndex d) (duration d) (totalDuration d) v (getDelay d) (yoyo d)
    (hold d) (repeat d) (repeatDelay d) (repeatCounter d) (flipX d) (flipY d)
    (progress d) (elapsed d) (state d) (isCountdown d) (key d) (start d)
    (end_ d) (current d) (getStartValue d) (getEndValue d) (ease d).

Definition set_repeatCounter (v : Num) (d : BaseTweenData) : BaseTweenData :=
  mkBaseTweenData
    (targetIndex d) (duration d) (totalDuration d) (delay d) (getDelay d)
    (yoyo d) (hold d) (repeat d) (repeatDelay d) v (flipX d) (flipY d)
    (progress d) (elapsed d) (state d) (isCountdown d) (key d) (start d)
    (end_ d) (current d) (getStartValue d) (getEndValue d) (ease d).

Definition set_progress (v : Num) (d : BaseTweenData) : BaseTweenData :=
  mkBaseTweenData
    (targetIndex d) (duration d) (totalDuration d) (delay d) (getDelay d)
    (yoyo d) (hold d) (repeat d) (repeatDelay d) (repeatCounter d) (flipX d)
    (flipY d) v (elapsed d) (state d) (isCountdown d) (key d) (start d)
    (end_ d) (current d) (getStartValue d) (getEndValue d) (ease d).

Definition set_elapsed (v : Num) (d : BaseTweenData) : BaseTweenData :=
  mkBaseTweenData
    (targetIndex d) (duration d) (totalDuration d) (delay d) (getDelay d)
    (yoyo d) (hold d) (repeat d) (repeatDelay d) (repeatCounter d) (flipX d)
    (flipY d) (progress d) v (state d) (isCountdown d) (key d) (start d)
    (end_ d) (current d) (getStartValue d) (getEndValue d) (ease d).

Definition set_state (v : StateType) (d : BaseTweenData) : BaseTweenData :=
  mkBaseTweenData
    (targetIndex d) (duration d) (totalDuration d) (delay d) (getDelay d)
    (yoyo d) (hold d) (repeat d) (repeatDelay d) (repeatCounter d) (flipX d)
    (flipY d) (progress d) (elapsed d) v (isCountdown d) (key d) (start d)
    (end_ d) (current d) (getStartValue d) (getEndValue d) (ease d).

Definition set_isCountdown (v : bool) (d : BaseTweenData) : BaseTweenData :=
  mkBaseTweenData
    (targetIndex d) (duration d) (totalDuration d) (delay d) (getDelay d)
    (yoyo d) (hold d) (repeat d) (repeatDelay d) (repeatCounter d) (flipX d)
    (flipY d) (progress d) (elapsed d) (state d) v (key d) (start d) (end_ d)
    (current d) (getStartValue d) (getEndValue d) (ease d).

Definition set_start (v : Num) (d : BaseTweenData) : BaseTweenData :=
  mkBaseTweenData
    (targetIndex d) (duration d) (totalDuration d) (delay d) (getDelay d)
    (yoyo d) (hold d) (repeat d) (repeatDelay d) (repeatCounter d) (flipX d)
    (flipY d) (progress d) (elapsed d) (state d) (isCountdown d) (key d) v
    (end_ d) (current d) (getStartValue d) (getEndValue d) (ease d).

Definition set_end_ (v : Num) (d : BaseTweenData) : BaseTweenData :=
  mkBaseTweenData
    (targetIndex d) (duration d) (totalDuration d) (delay d) (getDelay d)
    (yoyo d) (hold d) (repeat d) (repeatDelay d) (repeatCounter d) (flipX d)
    (flipY d) (progress d) (elapsed d) (state d) (isCountdown d) (key d)
    (start d) v (current d) (getStartValue d) (getEndValue d) (ease d).

Definition set_current (v : Num) (d : BaseTweenData) : BaseTweenData :=
  mkBaseTweenData
    (targetIndex d) (duration d) (totalDuration d) (delay d) (getDelay d)
    (yoyo d) (hold d) (repeat d) (repeatDelay d) (repeatCounter d) (flipX d)
    (flipY d) (progress d) (elapsed d) (state d) (isCountdown d) (key d)
    (start d) (end_ d) v (getStartValue d) (getEndValue d) (ease d).

(** What the extending class contributes to a freshly built unit. *)
Record Extension := mkExtension {
  ext_key : string;
  ext_start : Num;
  ext_end : Num;
  ext_current : Num;
  ext_getStartValue : Resolver;
  ext_getEndValue : Resolver;
  ext_ease : Num -> Num
}.

(** The constructor. [this.tween] is the tween of the [World] the unit is
    placed in. *)
Definition initialize (targetIndex : nat) (delay : Resolver) (duration : Num)
    (yoyo : bool) (hold repeat repeatDelay : Num) (flipX flipY : bool)
    (ext : Extension) : BaseTweenData :=
  mkBaseTweenData
    targetIndex
    (if num_leb duration 0 then Q2Qc 0.01 else duration)
    0
    0
    delay
    yoyo
    hold
    repeat
    repeatDelay
    0
    flipX
    flipY
    0
    0
    CREATED
    false
    (ext_key ext) (ext_start ext) (ext_end ext) (ext_current ext)
    (ext_getStartValue ext) (ext_getEndValue ext) (ext_ease ext).

(** ** Worlds and actions *)

Inductive Effect :=
| Enter (s : StateType)
| Dispatch (e : Event) (callback : string)
| ToggleFlipX (index : nat)
| ToggleFlipY (index : nat).

Record World := mkWorld {
  self : BaseTweenData;
  tween : Tween.t;
  trace : list Effect
}.

Definition on_self (f : BaseTweenData -> BaseTweenData) (w : World) : World :=
  mkWorld (f (self w)) (tween w) (trace w).
Definition on_tween (f : Tween.t -> Tween.t) (w : World) : World :=
  mkWorld (self w) (f (tween w)) (trace w).
Definition emit (e : Effect) (w : World) : World :=
  mkWorld (self w) (tween w) (e :: trace w).

Inductive Result (A : Type) :=
| Ok (a : A)
| TypeError.
Arguments Ok {A} a.
Arguments TypeError {A}.

Definition Action : Type := World -> Result World.

Definition skip : Action := fun w => Ok w.
Definition step (f : World -> World) : Action := fun w => Ok (f w).
Definition andThen (a b : Action) : Action :=
  fun w => match a w with Ok w' => b w' | TypeError => TypeError end.
Definition cond (c : World -> bool) (a b : Action) : Action :=
  fun w => if c w then a w else b w.
Definition when (c : World -> bool) (a : Action) : Action := cond c a skip.

Declare Scope action_scope.
Delimit Scope action_scope with action.
Bind Scope action_scope with Action.
Notation "a ;; b" := (andThen a b)
  (at level 100, b at level 200, right associativity) : action_scope.
Open Scope action_scope.

(** [tween.targets[targetIndex]] *)
Definition getTarget (w : World) : option Target.t :=
  Tween.targets (tween w) !! targetIndex (self w).

(** [target[k] = v w]: a [TypeError] when the target is [undefined]. *)
Definition write_target (k : string) (v : World -> Num) : Action :=
  fun w =>
    match getTarget w with
    | None => TypeError
    | Some t =>
        let t' := Target.set_props (<[k := v w]> (Target.props t)) t in
        Ok (on_tween
              (fun tw => Tween.set_targets
                           (<[targetIndex (self w) := t']> (Tween.targets tw)) tw)
              w)
    end.

(** [target.toggleFlipX()] and [target.toggleFlipY()], unguarded. *)
Definition call_toggle (pick : Target.t -> option (gmap string Num -> gmap string Num))
    (e : nat -> Effect) : Action :=
  fun w =>
    match getTarget w with
    | None => TypeError
    | Some t =>
        match pick t with
        | None => TypeError
        | Some f =>
            let t' := Target.set_props (f (Target.props t)) t in
            Ok (emit (e (targetIndex (self w)))
                  (on_tween
                     (fun tw => Tween.set_targets
                                  (<[targetIndex (self w) := t']> (Tween.targets tw)) tw)
                     w))
        end
    end.

(** [this.dispatchEvent(event, callback)] is provided by the extending
    class; the call is recorded. *)
Definition dispatchEvent (e : Event) (callback : string) : Action :=
  step (emit (Dispatch e callback)).

(** ** Methods of [BaseTweenData] *)

(** [setTargetValue(value)]; [None] stands for an omitted argument. *)
Definition setTargetValue (value : option Num) : Action :=
  fun w =>
    let value := match value with None => current (self w) | Some v => v end in
    write_target (key (self w)) (fun _ => value) w.

Definition enter (s : StateType) (countdown : bool) : Action :=
  step (on_self (set_state s)) ;;
  step (on_self (set_isCountdown countdown)) ;;
  step (emit (Enter s)).

Definition setCreatedState : Action := enter CREATED false.
Definition setDelayState : Action := enter DELAY true.
Definition setPendingRenderState : Action := enter PENDING_RENDER false.
Definition setPlayingForwardState : Action := enter PLAYING_FORWARD false.
Definition setPlayingBackwardState : Action := enter PLAYING_BACKWARD false.
Definition setHoldState : Action := enter HOLD_DELAY true.
Definition setRepeatState : Action := enter REPEAT_DELAY true.
Definition setCompleteState : Action := enter COMPLETE false.

Definition isCreated (w : World) : bool := bool_decide (state (self w) = CREATED).
Definition isDelayed (w : World) : bool := bool_decide (state (self w) = DELAY).
Definition isPendingRender (w : World) : bool :=
  bool_decide (state (self w) = PENDING_RENDER).
Definition isPlayingForward (w : World) : bool :=
  bool_decide (state (self w) = PLAYING_FORWARD).
Definition isPlayingBackward (w : World) : bool :=
  bool_decide (state (self w) = PLAYING_BACKWARD).
Definition isHolding (w : World) : bool :=
  bool_decide (state (self w) = HOLD_DELAY).
Definition isRepeating (w : World) : bool :=
  bool_decide (state (self w) = REPEAT_DELAY).
Definition isComplete (w : World) : bool :=
  bool_decide (state (self w) = COMPLETE).

(** Calls a resolver of the unit with the arguments every call site
    passes: [(target, key, value, targetIndex, totalTargets, tween)]. *)
Definition resolve (f : BaseTweenData -> Resolver) (value : Num) (w : World) : Num :=
  f (self w) (getTarget w) (key (self w)) value
    (targetIndex (self w)) (Tween.totalTargets (tween w)) (tween w).

(** [onRepeat(diff, setStart, isYoyo)] *)
Definition onRepeat (diff : Num) (setStart isYoyo : bool) : Action :=
  fun w0 =>
    let isTweenData := negb (String.eqb (key (self w0)) "texture") in
    (step (on_self (set_elapsed diff)) ;;
     step (on_self (fun d => set_progress (diff / duration d) d)) ;;
     when (fun w => flipX (self w)) (call_toggle Target.toggleFlipX ToggleFlipX) ;;
     when (fun w => flipY (self w)) (call_toggle Target.toggleFlipY ToggleFlipY) ;;
     when (fun _ => isTweenData && (setStart || isYoyo))
       (step (fun w =>
          on_self (set_start (resolve getStartValue (start (self w)) w)) w)) ;;
     if isYoyo then
       setPlayingBackwardState ;;
       dispatchEvent TWEEN_YOYO "onYoyo"
     else
       step (on_self (fun d => set_repeatCounter (repeatCounter d - 1) d)) ;;
       when (fun _ => isTweenData)
         (step (fun w =>
            on_self (set_end_ (resolve getEndValue (start (self w)) w)) w)) ;;
       cond (fun w => num_ltb 0 (repeatDelay (self w)))
         (step (on_self (fun d => set_elapsed (repeatDelay d - diff) d)) ;;
          when (fun _ => isTweenData)
            (step (on_self (fun d => set_current (start d) d)) ;;
             (fun w => write_target (key (self w0)) (fun w' => current (self w')) w)) ;;
          setRepeatState)
         (setPlayingForwardState ;;
          dispatchEvent TWEEN_REPEAT "onRepeat")) w0.

(** [setStateFromEnd(diff)] *)
Definition setStateFromEnd (diff : Num) : Action :=
  cond (fun w => yoyo (self w))
    (onRepeat diff true true)
    (cond (fun w => num_ltb 0 (repeatCounter (self w)))
       (onRepeat diff true false)
       setCompleteState).

(** [setStateFromStart(diff)]; the call leaves [isYoyo] undefined, which
    [onRepeat] tests as false. *)
Definition setStateFromStart (diff : Num) : Action :=
  cond (fun w => num_ltb 0 (repeatCounter (self w)))
    (onRepeat diff false false)
    setCompleteState.

Section WithConstants.

(** [TWEEN_CONST.MAX], the repeat count that stands for "forever"; its
    value is declared in [tweens/tween/const.js]. *)
Variable MAX : Num.

(** [reset()] *)
Definition reset : Action :=
  step (on_self (set_progress 0)) ;;
  step (on_self (set_elapsed 0)) ;;
  step (fun w => on_self (set_delay (resolve getDelay 0 w)) w) ;;
  step (on_self (fun d =>
    set_repeatCounter (if num_eqb (repeat d) (Q2Qc (-1)) then MAX else repeat d) d)) ;;
  setPendingRenderState ;;
  (fun w1 =>
     let t1 := duration (self w1) + hold (self w1) in
     let t1 := if yoyo (self w1) then t1 + duration (self w1) else t1 in
     let t2 := t1 + repeatDelay (self w1) in
     (step (on_self (fun d => set_totalDuration (delay d + t1) d)) ;;
      cond (fun w => num_eqb (repeat (self w)) (Q2Qc (-1)))
        (step (on_self (fun d => set_totalDuration (totalDuration d + t2 * MAX) d)) ;;
         step (on_tween (Tween.set_isInfinite true)))
        (when (fun w => num_ltb 0 (repeat (self w)))
           (step (on_self (fun d =>
              set_totalDuration (totalDuration d + t2 * repeat d) d))))) w1) ;;
  when (fun w => num_ltb (Tween.duration (tween w)) (totalDuration (self w)))
    (step (fun w => on_tween (Tween.set_duration (totalDuration (self w))) w)) ;;
  when (fun w => num_ltb (delay (self w)) (Tween.startDelay (tween w)))
    (step (fun w => on_tween (Tween.set_startDelay (delay (self w))) w)) ;;
  when (fun w => num_ltb 0 (delay (self w)))
    (step (on_self (fun d => set_elapsed (delay d) d)) ;;
     setDelayState).

End WithConstants.

(** ** The per-tick update *)

Definition clamp_le_1 (p : Num) : Num := if num_ltb 1 p then 1 else p.

(** Modelled from the spec: [update(deltaMs)], the per-tick contract of a
    unit, which the classes extending [BaseTweenData] implement
    ([TweenData.js], [TweenFrameData.js]: not part of the sources at hand).
    From section 4.1 of the specification:
    - while [isCountdown] is true the remaining countdown is decremented by
      [deltaMs]; on crossing zero the corresponding transition is performed,
      with the negative remainder as overshoot carried into the next phase:
      [Delay] goes to [PendingRender]; [HoldDelay] goes to [PlayingBackward]
      if yoyo or else evaluates repeat, which is the on-forward-end policy;
      [RepeatDelay] goes to [PlayingForward], the start value being
      re-snapshotted;
    - in [PendingRender] the next tick establishes the rendered start value
      and goes to [PlayingForward];
    - while playing, [elapsedMs] advances by [deltaMs], [progress] is
      [elapsedMs / duration] clamped to at most 1, the interpolated value
      [ease(progress) * (end - start) + start] (direction reversed when
      playing backward) is written to the target, and if
      [elapsedMs >= duration] the corresponding on-end policy is invoked
      with [diff = elapsedMs - duration]; [holdMs], when positive, is the
      pause after forward completion that precedes that decision;
    - a unit in [Created] or [Complete] does nothing. *)
Definition update (delta : Num) : Action :=
  cond (fun w => isCountdown (self w))
    (step (on_self (fun d => set_elapsed (elapsed d - delta) d)) ;;
     when (fun w => num_leb (elapsed (self w)) 0)
       (fun w =>
          let over := - elapsed (self w) in
          match state (self w) with
          | DELAY =>
              (step (on_self (set_elapsed over)) ;;
               setPendingRenderState) w
          | HOLD_DELAY => setStateFromEnd over w
          | REPEAT_DELAY =>
              (step (on_self (set_elapsed over)) ;;
               step (fun w' =>
                 on_self (set_start (resolve getStartValue (start (self w')) w')) w') ;;
               setPlayingForwardState) w
          | _ => Ok w
          end))
    (fun w =>
       match state (self w) with
       | PENDING_RENDER =>
           (step (on_self (fun d => set_current (start d) d)) ;;
            setTargetValue None ;;
            setPlayingForwardState) w
       | PLAYING_FORWARD | PLAYING_BACKWARD =>
           let forward := isPlayingForward w in
           (step (on_self (fun d => set_elapsed (elapsed d + delta) d)) ;;
            step (on_self (fun d =>
              set_progress (clamp_le_1 (elapsed d / duration d)) d)) ;;
            step (on_self (fun d =>
              let p := if forward then progress d else 1 - progress d in
              set_current (ease d p * (end_ d - start d) + start d) d)) ;;
            setTargetValue None ;;
            when (fun w' => num_leb (duration (self w')) (elapsed (self w')))
              (fun w' =>
                 let diff := elapsed (self w') - duration (self w') in
                 if forward then
                   cond (fun w'' => num_ltb 0 (hold (self w'')))
                     (step (on_self (fun d => set_elapsed (hold d) d)) ;;
                      setHoldState)
                     (setStateFromEnd diff) w'
                 else setStateFromStart diff w')) w
       | _ => Ok w
       end).

(** Successive ticks. *)
Fixpoint updates (deltas : list Num) : Action :=
  match deltas with
  | [] => skip
  | delta :: rest => update delta ;; updates rest
  end.

(** ** Observations on traces *)

(** The notifications in a trace. *)
Fixpoint dispatched (tr : list Effect) : list Event :=
  match tr with
  | [] => []
  | Dispatch e _ :: rest => e :: dispatched rest
  | _ :: rest => dispatched rest
  end.

(** The states entered. *)
Fixpoint entered (tr : list Effect) : list StateType :=
  match tr with
  | [] => []
  | Enter s :: rest => s :: entered rest
  | _ :: rest => entered rest
  end.

(** How many times the unit entered state [s]. *)
Definition entries (s : StateType) (tr : list Effect) : nat :=
  length (List.filter (fun s' => bool_decide (s' = s)) (entered tr)).

(** ** Predicates used in the statements *)

(** The configuration of a unit: the fields no method assigns. *)
Definition same_config (d d' : BaseTweenData) : Prop :=
  targetIndex d' = targetIndex d /\ duration d' = duration d /\
  getDelay d' = getDelay d /\ yoyo d' = yoyo d /\ hold d' = hold d /\
  repeat d' = repeat d /\ repeatDelay d' = repeatDelay d /\
  flipX d' = flipX d /\ flipY d' = flipY d /\ key d' = key d /\
  getStartValue d' = getStartValue d /\ getEndValue d' = getEndValue d /\
  ease d' = ease d.

Definition has_method {A} (m : option A) : bool :=
  match m with Some _ => true | None => false end.

(** The caller's contract on targets: the unit's target exists and exposes
    the toggles the unit's flip flags ask for. *)
Definition target_ready (w : World) : bool :=
  match getTarget w with
  | None => false
  | Some t =>
      implb (flipX (self w)) (has_method (Target.toggleFlipX t)) &&
      implb (flipY (self w)) (has_method (Target.toggleFlipY t))
  end.

(** The value of property [k] of the unit's target. *)
Definition target_prop (k : string) (w : World) : option Num :=
  match getTarget w with
  | None => None
  | Some t => Target.props t !! k
  end.


(** [a] run from [w] returns, in a world that satisfies [Q]. *)
Definition returns (a : Action) (Q : World -> Prop) (w : World) : Prop :=
  match a w with Ok w' => Q w' | TypeError => False end.

(** Whenever [a] run from [w] returns, the world it returns
    satisfies [Q]. *)
Definition ensures (a : Action) (Q : World -> Prop) (w : World) : Prop :=
  match a w with Ok w' => Q w' | TypeError => True end.

(** [a] keeps the invariant [I]. *)
Definition preserves (I : World -> Prop) (a : Action) : Prop :=
  forall w, I w -> ensures a I w.

(** An action that returns whenever the contract on targets holds, and
    keeps it. *)
Definition keeps_ready (a : Action) : Prop :=
  forall w, target_ready w = true -> returns a (fun w' => target_ready w' = true) w.

(** [w'] differs from [w] at most in the running fields of the unit
    ([progress], [elapsed], [state], [isCountdown], [start], [end],
    [current]), in the target and in the trace. *)
Definition quiet (w w' : World) : Prop :=
  same_config (self w) (self w') /\
  repeatCounter (self w') = repeatCounter (self w) /\
  totalDuration (self w') = totalDuration (self w) /\
  delay (self w') = delay (self w).

(** The invariant of a unit that repeats [N] times, with no yoyo, no hold
    and no repeat delay, whose trace had [n0] entries into
    [PLAYING_FORWARD] before its [reset]: the entries made so far and the
    repeats left add up to [N + 1]. *)
Definition forward_invariant (N n0 : nat) (w : World) : Prop :=
  yoyo (self w) = false /\ hold (self w) <= 0 /\ repeatDelay (self w) <= 0 /\
  match state (self w) with
  | DELAY =>
      isCountdown (self w) = true /\
      repeatCounter (self w) = num_of_nat N /\
      entries PLAYING_FORWARD (trace w) = n0
  | PENDING_RENDER =>
      isCountdown (self w) = false /\
      repeatCounter (self w) = num_of_nat N /\
      entries PLAYING_FORWARD (trace w) = n0
  | PLAYING_FORWARD =>
      isCountdown (self w) = false /\
      exists k, repeatCounter (self w) = num_of_nat k /\
        (entries PLAYING_FORWARD (trace w) + k = n0 + N + 1)%nat
  | COMPLETE =>
      isCountdown (self w) = false /\
      entries PLAYING_FORWARD (trace w) = (n0 + N + 1)%nat
  | _ => False
  end.

(** Sequences of calls to the methods of [BaseTweenData]. *)
Inductive Call :=
| call_reset
| call_onRepeat (diff : Num) (setStart isYoyo : bool)
| call_setStateFromEnd (diff : Num)
| call_setStateFromStart (diff : Num)
| call_setTargetValue (value : option Num)
| call_setState (s : StateType).

Definition setState (s : StateType) : Action :=
  match s with
  | CREATED => setCreatedState
  | DELAY => setDelayState
  | PENDING_RENDER => setPendingRenderState
  | PLAYING_FORWARD => setPlayingForwardState
  | PLAYING_BACKWARD => setPlayingBackwardState
  | HOLD_DELAY => setHoldState
  | REPEAT_DELAY => setRepeatState
  | COMPLETE => setCompleteState
  end.

Definition perform (MAX : Num) (c : Call) : Action :=
  match c with
  | call_reset => reset MAX
  | call_onRepeat diff setStart isYoyo => onRepeat diff setStart isYoyo
  | call_setStateFromEnd diff => setStateFromEnd diff
  | call_setStateFromStart diff => setStateFromStart diff
  | call_setTargetValue value => setTargetValue value
  | call_setState s => setState s
  end.

Fixpoint perform_all (MAX : Num) (cs : list Call) : Action :=
  match cs with
  | [] => skip
  | c :: rest => perform MAX c ;; perform_all MAX rest
  end.

(** ** Concrete units and worlds, for examples *)

Definition const_resolver (v : Num) : Resolver := fun _ _ _ _ _ _ => v.

Definition linear : Num -> Num := fun p => p.

Definition plain_target (k : string) (v : Num) : Target.t :=
  Target.mk (<[k := v]> ∅) None None.

Definition flipping_target (k : string) (v : Num) : Target.t :=
  Target.mk (<[k := v]> ∅) (Some (fun p => p)) (Some (fun p => p)).

Definition fresh_tween (t : Target.t) : Tween.t :=
  Tween.mk [t] 1 0 0 false.

Definition extension_for (k : string) (from to : Num) : Extension :=
  mkExtension k from to from (const_resolver from) (const_resolver to) linear.

(** A value for [TWEEN_CONST.MAX] in the examples. *)
Definition MAX_sample : Num := Q2Qc 999999999999.

(** A frame-swap unit (key ["texture"]) that repeats after a pause: its
    target holds 7 under that key, its start value is 3 and its current
    value 5. *)
Definition texture_unit : BaseTweenData :=
  mkBaseTweenData 0 (Q2Qc 100) 0 0 (const_resolver 0) false 0 (Q2Qc 2)
    (Q2Qc 50) (Q2Qc 2) false false 0 0 PLAYING_FORWARD false
    "texture" (Q2Qc 3) (Q2Qc 9) (Q2Qc 5)
    (const_resolver (Q2Qc 3)) (const_resolver (Q2Qc 9)) linear.

Definition texture_world : World :=
  mkWorld texture_unit (fresh_tween (plain_target "texture" (Q2Qc 7))) [].

(** The same unit animating the numeric property ["x"]. *)
Definition x_unit : BaseTweenData :=
  mkBaseTweenData 0 (Q2Qc 100) 0 0 (const_resolver 0) false 0 (Q2Qc 2)
    (Q2Qc 50) (Q2Qc 2) false false 0 0 PLAYING_FORWARD false
    "x" (Q2Qc 3) (Q2Qc 9) (Q2Qc 5)
    (const_resolver (Q2Qc 3)) (const_resolver (Q2Qc 9)) linear.

Definition x_world : World :=
  mkWorld x_unit (fresh_tween (plain_target "x" (Q2Qc 7))) [].




(** ** Further predicates and harnesses *)

(** The states in which the unit waits for a countdown. *)
Definition countdown_state (s : StateType) : bool :=
  match s with
  | DELAY | HOLD_DELAY | REPEAT_DELAY => true
  | _ => false
  end.

(** The target is missing, or lacks the method [pick]. *)
Definition lacks {A} (pick : Target.t -> option A) (w : World) : bool :=
  match getTarget w with
  | None => true
  | Some t => negb (has_method (pick t))
  end.

Definition has_target (w : World) : bool :=
  match getTarget w with Some _ => true | None => false end.

(** The toggle calls in a trace. *)
Fixpoint toggled (tr : list Effect) : list Effect :=
  match tr with
  | [] => []
  | ToggleFlipX i :: rest => ToggleFlipX i :: toggled rest
  | ToggleFlipY i :: rest => ToggleFlipY i :: toggled rest
  | _ :: rest => toggled rest
  end.

(** Calls other than a direct call of [onRepeat]: the end policies are
    the only callers of [onRepeat] in the class. *)
Definition policy_call (c : Call) : bool :=
  match c with
  | call_onRepeat _ _ _ => false
  | _ => true
  end.

(** [reset] called on several units that share one tween, in order. *)
Fixpoint reset_units (MAX : Num) (units : list BaseTweenData) (tw : Tween.t)
    : Result (list BaseTweenData * Tween.t) :=
  match units with
  | [] => Ok ([], tw)
  | d :: rest =>
      match reset MAX (mkWorld d tw []) with
      | TypeError => TypeError
      | Ok w =>
          match reset_units MAX rest (tween w) with
          | TypeError => TypeError
          | Ok (ds, tw') => Ok (self w :: ds, tw')
          end
      end
  end.

(** * Proofs *)

(** ** Numbers *)

Lemma num_ltb_lt a b : num_ltb a b = true <-> a < b.
Proof.
  unfold num_ltb. rewrite negb_true_iff, <- not_true_iff_false, Qle_bool_iff.
  split; intros H.
  - now apply Qcnot_le_lt.
  - now apply Qclt_not_le.
Qed.

Lemma num_ltb_ge a b : num_ltb a b = false <-> b <= a.
Proof.
  rewrite <- not_true_iff_false, num_ltb_lt. split; intros H.
  - now apply Qcnot_lt_le.
  - now apply Qcle_not_lt.
Qed.

Lemma num_leb_le a b : num_leb a b = true <-> a <= b.
Proof. unfold num_leb. now rewrite Qle_bool_iff. Qed.

Lemma num_leb_gt a b : num_leb a b = false <-> b < a.
Proof.
  rewrite <- not_true_iff_false, num_leb_le. split; intros H.
  - now apply Qcnot_le_lt.
  - now apply Qclt_not_le.
Qed.

Lemma num_eqb_eq a b : num_eqb a b = true <-> a = b.
Proof.
  unfold num_eqb. split.
  - apply Qc_eq_bool_correct.
  - intros ->. unfold Qc_eq_bool. destruct (Qcanon.Qc_eq_dec b b); congruence.
Qed.

Lemma num_eqb_neq a b : num_eqb a b = false <-> a <> b.
Proof. rewrite <- not_true_iff_false, num_eqb_eq. tauto. Qed.

Lemma num_eq_Qeq (a b : Num) : a = b -> (this a == this b)%Q.
Proof. now intros ->. Qed.

(** Linear arithmetic over [Num]: goals and hypotheses are moved to [Q]. *)
Ltac num_to_Q :=
  repeat match goal with
  | H : @eq Qc _ _ |- _ => apply num_eq_Qeq in H
  | H : ~ @eq Qc _ _ |- _ => revert H
  end;
  try apply Qc_is_canon;
  unfold Qclt, Qcle, Qcminus, Qcplus, Qcopp, Qcmult, Q2Qc in *; simpl this in *;
  rewrite ?Qred_correct in *.
Ltac num_lra := num_to_Q; lra.

Lemma num_of_nat_S n : num_of_nat (S n) = num_of_nat n + 1.
Proof. unfold num_of_nat. apply Qc_is_canon. simpl this. rewrite !Qred_correct. rewrite Nat2Z.inj_succ. unfold Z.succ. rewrite inject_Z_plus. reflexivity. Qed.
Lemma num_of_nat_nonneg n : 0 <= num_of_nat n.
Proof. induction n. - now vm_compute. - rewrite num_of_nat_S. num_lra. Qed.

(** ** Running actions *)

Ltac unfold_actions :=
  unfold setStateFromEnd, setStateFromStart, onRepeat, setTargetValue,
    setCreatedState, setDelayState, setPendingRenderState,
    setPlayingForwardState, setPlayingBackwardState, setHoldState,
    setRepeatState, setCompleteState, enter, dispatchEvent,
    call_toggle, write_target, when, cond, andThen, step, skip in *.

Ltac split_cases :=
  repeat (simpl in *;
    match goal with
    | |- context [match ?x with _ => _ end] => destruct x eqn:?
    | H : context [match ?x with _ => _ end] |- _ => destruct x eqn:?
    end); simpl in *.

(** Opens a unit, naming its fields. *)
Ltac destruct_unit d :=
  destruct d as [ti dur tdur dl gd yy hd rp rd rc fx fy pg el st cd ky
                 sv ev cv gsv gev es].

Ltac run_action w :=
  destruct w as [[] ? ?]; unfold_actions; unfold getTarget, resolve in *;
  split_cases; intros; simplify_eq; simpl in *.

Ltac new_effects :=
  let close := (split; [ reflexivity | ]) in
  first [ exists []; close | eexists [_]; close | eexists [_; _]; close
        | eexists [_; _; _]; close | eexists [_; _; _; _]; close ].

Lemma same_config_refl d : same_config d d.
Proof. repeat split. Qed.

Lemma same_config_trans d1 d2 d3 :
  same_config d1 d2 -> same_config d2 d3 -> same_config d1 d3.
Proof. unfold same_config. intuition congruence. Qed.

(** What a call of [onRepeat] that returns has done. *)
Lemma onRepeat_returns diff setStart isYoyo w w' :
  onRepeat diff setStart isYoyo w = Ok w' ->
  same_config (self w) (self w') /\
  progress (self w') = diff / duration (self w) /\
  totalDuration (self w') = totalDuration (self w) /\
  delay (self w') = delay (self w) /\
  (isYoyo = true ->
     state (self w') = PLAYING_BACKWARD /\ isCountdown (self w') = false /\
     repeatCounter (self w') = repeatCounter (self w) /\
     elapsed (self w') = diff) /\
  (isYoyo = false ->
     repeatCounter (self w') = repeatCounter (self w) - 1 /\
     if num_ltb 0 (repeatDelay (self w)) then
       state (self w') = REPEAT_DELAY /\ isCountdown (self w') = true /\
       elapsed (self w') = repeatDelay (self w) - diff
     else
       state (self w') = PLAYING_FORWARD /\ isCountdown (self w') = false /\
       elapsed (self w') = diff) /\
  exists new,
    trace w' = new ++ trace w /\
    entered new = [state (self w')] /\
    dispatched new =
      (if isYoyo then [TWEEN_YOYO]
       else if num_ltb 0 (repeatDelay (self w)) then [] else [TWEEN_REPEAT]).
Proof.
  destruct isYoyo.
  all: run_action w.
  all: try congruence.
  all: repeat split; try discriminate; auto.
  all: new_effects; split; reflexivity.
Qed.


(** ** Calls that return *)

Lemma returns_ex a Q w : returns a Q w <-> exists w', a w = Ok w' /\ Q w'.
Proof.
  unfold returns. destruct (a w) as [w'|]; split.
  - eauto.
  - now intros (? & [= <-] & ?).
  - tauto.
  - now intros (? & ? & ?).
Qed.

Lemma returns_step f Q w : Q (f w) -> returns (step f) Q w.
Proof. trivial. Qed.

Lemma returns_skip Q w : Q w -> returns skip Q w.
Proof. trivial. Qed.

Lemma returns_seq a b Q w : returns a (returns b Q) w -> returns (a ;; b) Q w.
Proof. unfold returns, andThen. now destruct (a w). Qed.

Lemma returns_cond c a b Q w :
  (c w = true -> returns a Q w) -> (c w = false -> returns b Q w) ->
  returns (cond c a b) Q w.
Proof.
  unfold returns, cond. destruct (c w); intros Ha Hb; [ apply Ha | apply Hb ]; reflexivity.
Qed.

Lemma returns_when c a Q w :
  (c w = true -> returns a Q w) -> (c w = false -> Q w) ->
  returns (when c a) Q w.
Proof. intros. now apply returns_cond. Qed.

Lemma returns_weaken a (Q Q' : World -> Prop) w :
  (forall w', Q w' -> Q' w') -> returns a Q w -> returns a Q' w.
Proof. unfold returns. destruct (a w); auto. Qed.

Lemma keeps_ready_seq a b : keeps_ready a -> keeps_ready b -> keeps_ready (a ;; b).
Proof.
  intros Ha Hb w Hw. apply returns_seq.
  eapply returns_weaken; [ | now apply Ha ]. intros w' Hw'. now apply Hb.
Qed.

Lemma keeps_ready_skip : keeps_ready skip.
Proof. now intros w Hw. Qed.

Lemma keeps_ready_cond c a b : keeps_ready a -> keeps_ready b -> keeps_ready (cond c a b).
Proof. intros Ha Hb w Hw. apply returns_cond; auto. Qed.

Lemma keeps_ready_when c a : keeps_ready a -> keeps_ready (when c a).
Proof. intros. apply keeps_ready_cond; auto using keeps_ready_skip. Qed.

Lemma keeps_ready_on_self f :
  (forall d, targetIndex (f d) = targetIndex d /\ flipX (f d) = flipX d /\ flipY (f d) = flipY d) ->
  keeps_ready (step (on_self f)).
Proof.
  intros Hf w Hw. apply returns_step. destruct (Hf (self w)) as (Hi & Hx & Hy).
  unfold target_ready, getTarget in *. simpl. now rewrite Hi, Hx, Hy.
Qed.

Lemma keeps_ready_on_self_dep (f : World -> BaseTweenData -> BaseTweenData) :
  (forall w d, targetIndex (f w d) = targetIndex d /\ flipX (f w d) = flipX d /\ flipY (f w d) = flipY d) ->
  keeps_ready (step (fun w => on_self (f w) w)).
Proof.
  intros Hf w Hw. apply returns_step. destruct (Hf w (self w)) as (Hi & Hx & Hy).
  unfold target_ready, getTarget in *. simpl. now rewrite Hi, Hx, Hy.
Qed.

Lemma keeps_ready_on_tween (f : World -> Tween.t -> Tween.t) :
  (forall w tw, Tween.targets (f w tw) = Tween.targets tw) ->
  keeps_ready (step (fun w => on_tween (f w) w)).
Proof.
  intros Hf w Hw. apply returns_step.
  unfold target_ready, getTarget in *. simpl. now rewrite Hf.
Qed.

Lemma keeps_ready_emit e : keeps_ready (step (emit e)).
Proof. now intros w Hw. Qed.

Lemma target_ready_replace w t p :
  target_ready w = true -> getTarget w = Some t ->
  target_ready
    (on_tween (fun tw => Tween.set_targets
       (<[targetIndex (self w) := Target.set_props p t]> (Tween.targets tw)) tw) w) = true.
Proof.
  unfold target_ready, getTarget. intros Hw Ht. rewrite Ht in Hw. simpl.
  rewrite list_lookup_insert_eq by (now apply lookup_lt_Some in Ht).
  exact Hw.
Qed.

Lemma keeps_ready_write_target k v : keeps_ready (write_target k v).
Proof.
  intros w Hw. unfold returns, write_target.
  destruct (getTarget w) as [t|] eqn:Ht.
  - now apply target_ready_replace.
  - unfold target_ready in Hw. now rewrite Ht in Hw.
Qed.

Lemma keeps_ready_setTargetValue v : keeps_ready (setTargetValue v).
Proof. intros w Hw. unfold setTargetValue. now apply keeps_ready_write_target. Qed.

Lemma keeps_ready_toggleFlipX :
  keeps_ready (when (fun w => flipX (self w)) (call_toggle Target.toggleFlipX ToggleFlipX)).
Proof.
  intros w Hw. apply returns_when; [ intros Hf | trivial ].
  unfold returns, call_toggle. pose proof Hw as Hw'.
  unfold target_ready in Hw'. destruct (getTarget w) as [t|] eqn:Ht; [ | discriminate ].
  rewrite Hf in Hw'. destruct (Target.toggleFlipX t); [ | discriminate ].
  now apply target_ready_replace.
Qed.

Lemma keeps_ready_toggleFlipY :
  keeps_ready (when (fun w => flipY (self w)) (call_toggle Target.toggleFlipY ToggleFlipY)).
Proof.
  intros w Hw. apply returns_when; [ intros Hf | trivial ].
  unfold returns, call_toggle. pose proof Hw as Hw'.
  unfold target_ready in Hw'. destruct (getTarget w) as [t|] eqn:Ht; [ | discriminate ].
  rewrite Hf in Hw'. destruct (Target.toggleFlipY t).
  - now apply target_ready_replace.
  - now rewrite andb_false_r in Hw'.
Qed.

Lemma keeps_ready_enter s c : keeps_ready (enter s c).
Proof.
  unfold enter. repeat apply keeps_ready_seq;
    auto using keeps_ready_emit, keeps_ready_on_self.
Qed.

(** Structural proof search, driven by the syntax of the action. *)
Ltac ready_step :=
  match goal with
  | |- keeps_ready (andThen _ _) => apply keeps_ready_seq
  | |- keeps_ready skip => apply keeps_ready_skip
  | |- keeps_ready (when _ (call_toggle Target.toggleFlipX _)) =>
      apply keeps_ready_toggleFlipX
  | |- keeps_ready (when _ (call_toggle Target.toggleFlipY _)) =>
      apply keeps_ready_toggleFlipY
  | |- keeps_ready (when _ _) => apply keeps_ready_when
  | |- keeps_ready (cond _ _ _) => apply keeps_ready_cond
  | |- keeps_ready (enter _ _) => apply keeps_ready_enter
  | |- keeps_ready (step (emit _)) => apply keeps_ready_emit
  | |- keeps_ready (step (on_self _)) =>
      apply keeps_ready_on_self; intros []; repeat split
  | |- keeps_ready (step (fun w => on_self _ w)) =>
      apply keeps_ready_on_self_dep; intros ? []; repeat split
  | |- keeps_ready (step (on_tween ?f)) =>
      apply (keeps_ready_on_tween (fun _ => f)); intros ? []; reflexivity
  | |- keeps_ready (step (fun w => on_tween _ w)) =>
      apply keeps_ready_on_tween; intros ? []; reflexivity
  | |- keeps_ready (write_target _ _) => apply keeps_ready_write_target
  | |- keeps_ready (fun w => write_target _ _ w) => apply keeps_ready_write_target
  | |- keeps_ready (setTargetValue _) => apply keeps_ready_setTargetValue
  end.
Ltac ready :=
  unfold setCreatedState, setDelayState, setPendingRenderState,
    setPlayingForwardState, setPlayingBackwardState, setHoldState,
    setRepeatState, setCompleteState, dispatchEvent;
  repeat ready_step.

(** Methods bind local variables from the world they start in. *)
Ltac enter_method :=
  let w := fresh "w" in
  let Hw := fresh "Hw" in
  intros w Hw; unfold returns; cbv beta zeta;
  match goal with
  | |- match ?a w with _ => _ end =>
      change (returns a (fun w' => target_ready w' = true) w);
      apply (fun K : keeps_ready a => K w Hw)
  end.

Lemma keeps_ready_onRepeat diff setStart isYoyo :
  keeps_ready (onRepeat diff setStart isYoyo).
Proof.
  unfold onRepeat, keeps_ready at 1. enter_method.
  destruct isYoyo; ready.
Qed.

Lemma keeps_ready_setStateFromEnd diff : keeps_ready (setStateFromEnd diff).
Proof. unfold setStateFromEnd. ready; apply keeps_ready_onRepeat. Qed.

Lemma keeps_ready_setStateFromStart diff : keeps_ready (setStateFromStart diff).
Proof. unfold setStateFromStart. ready; apply keeps_ready_onRepeat. Qed.

Lemma keeps_ready_reset MAX : keeps_ready (reset MAX).
Proof.
  unfold reset. ready.
  unfold keeps_ready. enter_method. ready.
Qed.

(** Modelled [update] keeps the contract as well. *)
Lemma keeps_ready_update delta : keeps_ready (update delta).
Proof.
  unfold update. ready.
  - intros w Hw. unfold returns.
    destruct (state (self w)) eqn:Hs; try assumption;
    match goal with
    | |- match ?a w with _ => _ end =>
        change (returns a (fun w' => target_ready w' = true) w);
        apply (fun K : keeps_ready a => K w Hw)
    end; ready; apply keeps_ready_setStateFromEnd.
  - intros w Hw. unfold returns.
    destruct (state (self w)) eqn:Hs; try assumption;
    cbv zeta;
    match goal with
    | |- match ?a w with _ => _ end =>
        change (returns a (fun w' => target_ready w' = true) w);
        apply (fun K : keeps_ready a => K w Hw)
    end; ready.
    all: intros w1 Hw1; unfold returns; destruct (isPlayingForward w);
      match goal with
      | |- match ?a w1 with _ => _ end =>
          change (returns a (fun w' => target_ready w' = true) w1);
          apply (fun K : keeps_ready a => K w1 Hw1)
      end; ready;
      first [ apply keeps_ready_setStateFromEnd | apply keeps_ready_setStateFromStart ].
Qed.

Lemma keeps_ready_updates deltas : keeps_ready (updates deltas).
Proof.
  induction deltas; simpl; ready; auto using keeps_ready_update.
Qed.

(** ** [reset] *)

(** [reset] never raises; this is the world it returns. *)
Lemma reset_returns MAX w :
  let d := self w in
  let tw := tween w in
  let delay' := resolve getDelay 0 w in
  let forever := num_eqb (repeat d) (Q2Qc (-1)) in
  let t1 :=
    if yoyo d then duration d + hold d + duration d else duration d + hold d in
  let t2 := t1 + repeatDelay d in
  let total :=
    if forever then delay' + t1 + t2 * MAX
    else if num_ltb 0 (repeat d) then delay' + t1 + t2 * repeat d
    else delay' + t1 in
  exists w',
    reset MAX w = Ok w' /\
    same_config d (self w') /\
    start (self w') = start d /\ end_ (self w') = end_ d /\
    current (self w') = current d /\
    progress (self w') = 0 /\
    delay (self w') = delay' /\
    repeatCounter (self w') = (if forever then MAX else repeat d) /\
    totalDuration (self w') = total /\
    elapsed (self w') = (if num_ltb 0 delay' then delay' else 0) /\
    state (self w') = (if num_ltb 0 delay' then DELAY else PENDING_RENDER) /\
    isCountdown (self w') = num_ltb 0 delay' /\
    Tween.targets (tween w') = Tween.targets tw /\
    Tween.totalTargets (tween w') = Tween.totalTargets tw /\
    Tween.duration (tween w') =
      (if num_ltb (Tween.duration tw) total then total else Tween.duration tw) /\
    Tween.startDelay (tween w') =
      (if num_ltb delay' (Tween.startDelay tw) then delay' else Tween.startDelay tw) /\
    Tween.isInfinite (tween w') = (if forever then true else Tween.isInfinite tw) /\
    trace w' =
      (if num_ltb 0 delay' then [Enter DELAY; Enter PENDING_RENDER]
       else [Enter PENDING_RENDER]) ++ trace w.
Proof.
  destruct w as [d [tgts tt tdur tsd tinf] tr]. destruct d.
  unfold reset. unfold_actions. unfold resolve, getTarget. cbv zeta. simpl.
  repeat match goal with
  | |- context [if ?c then _ else _] => destruct c eqn:?; simpl
  end.
  all: eexists; (split; [ reflexivity | ]); simpl.
  all: repeat match goal with
       | H : ?c = _ |- context [?c] => rewrite H
       end; simpl.
  all: repeat split; reflexivity.
Qed.

(** ** The end policies *)

Lemma setStateFromEnd_returns diff w w' :
  setStateFromEnd diff w = Ok w' ->
  if yoyo (self w) then onRepeat diff true true w = Ok w'
  else if num_ltb 0 (repeatCounter (self w)) then onRepeat diff true false w = Ok w'
  else
    quiet w w' /\ state (self w') = COMPLETE /\ isCountdown (self w') = false /\
    elapsed (self w') = elapsed (self w) /\ tween w' = tween w /\
    trace w' = Enter COMPLETE :: trace w.
Proof.
  unfold setStateFromEnd, cond.
  destruct (yoyo (self w)); [ trivial | ].
  destruct (num_ltb _ _); [ trivial | ].
  destruct w as [[] ? ?]. intros [= <-]. now repeat split.
Qed.

Lemma setStateFromStart_returns diff w w' :
  setStateFromStart diff w = Ok w' ->
  if num_ltb 0 (repeatCounter (self w)) then onRepeat diff false false w = Ok w'
  else
    quiet w w' /\ state (self w') = COMPLETE /\ isCountdown (self w') = false /\
    elapsed (self w') = elapsed (self w) /\ tween w' = tween w /\
    trace w' = Enter COMPLETE :: trace w.
Proof.
  unfold setStateFromStart, cond.
  destruct (num_ltb _ _); [ trivial | ].
  destruct w as [[] ? ?]. intros [= <-]. now repeat split.
Qed.

(** ** The modelled [update] *)

Ltac unfold_update :=
  unfold update, setTargetValue, setPendingRenderState,
    setPlayingForwardState, setHoldState, enter,
    write_target, when, cond, andThen, step, skip in *.

(** What a tick that returns has done. The end policies are left as
    calls, from a world [w1] that differs from [w] in running fields only. *)
Lemma update_returns delta w w' :
  update delta w = Ok w' ->
  if isCountdown (self w) then
    let e := elapsed (self w) - delta in
    if num_leb e 0 then
      match state (self w) with
      | DELAY =>
          quiet w w' /\ state (self w') = PENDING_RENDER /\
          isCountdown (self w') = false /\ elapsed (self w') = - e /\
          trace w' = Enter PENDING_RENDER :: trace w
      | HOLD_DELAY =>
          exists w1, quiet w w1 /\ trace w1 = trace w /\
            setStateFromEnd (- e) w1 = Ok w'
      | REPEAT_DELAY =>
          quiet w w' /\ state (self w') = PLAYING_FORWARD /\
          isCountdown (self w') = false /\ elapsed (self w') = - e /\
          trace w' = Enter PLAYING_FORWARD :: trace w
      | _ =>
          quiet w w' /\ state (self w') = state (self w) /\
          isCountdown (self w') = true /\ trace w' = trace w
      end
    else
      quiet w w' /\ state (self w') = state (self w) /\
      isCountdown (self w') = true /\ elapsed (self w') = e /\
      trace w' = trace w
  else
    match state (self w) with
    | PENDING_RENDER =>
        quiet w w' /\ state (self w') = PLAYING_FORWARD /\
        isCountdown (self w') = false /\ elapsed (self w') = elapsed (self w) /\
        trace w' = Enter PLAYING_FORWARD :: trace w
    | PLAYING_FORWARD =>
        let e := elapsed (self w) + delta in
        if num_leb (duration (self w)) e then
          if num_ltb 0 (hold (self w)) then
            quiet w w' /\ state (self w') = HOLD_DELAY /\
            isCountdown (self w') = true /\ elapsed (self w') = hold (self w) /\
            trace w' = Enter HOLD_DELAY :: trace w
          else
            exists w1, quiet w w1 /\ trace w1 = trace w /\
              setStateFromEnd (e - duration (self w)) w1 = Ok w'
        else
          quiet w w' /\ state (self w') = PLAYING_FORWARD /\
          isCountdown (self w') = false /\ elapsed (self w') = e /\
          trace w' = trace w
    | PLAYING_BACKWARD =>
        let e := elapsed (self w) + delta in
        if num_leb (duration (self w)) e then
          exists w1, quiet w w1 /\ trace w1 = trace w /\
            setStateFromStart (e - duration (self w)) w1 = Ok w'
        else
          quiet w w' /\ state (self w') = PLAYING_BACKWARD /\
          isCountdown (self w') = false /\ elapsed (self w') = e /\
          trace w' = trace w
    | _ => w' = w
    end.
Proof.
  destruct w as [d tw tr]. destruct_unit d.
  unfold_update. unfold getTarget, resolve, isPlayingForward.
  cbv zeta. simpl.
  destruct cd; simpl.
  - destruct (num_leb (el - delta) (Q2Qc 0)) eqn:He; simpl.
    + destruct st; simpl; intros H; simplify_eq; simpl;
        try (now repeat split);
        try (eexists; split; [ | split; [ | eassumption ] ]; now repeat split).
    + intros [= <-]. now repeat split.
  - destruct st; simpl; try (now intros [= <-]).
    + destruct (tw.(Tween.targets) !! ti); [ | discriminate ].
      simpl. intros [= <-]. now repeat split.
    + destruct (tw.(Tween.targets) !! ti); [ | discriminate ].
      simpl. destruct (num_leb dur (el + delta)); simpl.
      * destruct (num_ltb (Q2Qc 0) hd); simpl.
        -- intros [= <-]. now repeat split.
        -- intros H. eexists; split; [ | split; [ | eassumption ] ]; now repeat split.
      * intros [= <-]. now repeat split.
    + destruct (tw.(Tween.targets) !! ti); [ | discriminate ].
      simpl. destruct (num_leb dur (el + delta)); simpl.
      * intros H. eexists; split; [ | split; [ | eassumption ] ]; now repeat split.
      * intros [= <-]. now repeat split.
Qed.

(** ** The configuration is never assigned *)

Lemma quiet_refl w : quiet w w.
Proof. repeat split. Qed.

Lemma setTargetValue_returns value w w' :
  setTargetValue value w = Ok w' ->
  self w' = self w /\ trace w' = trace w /\
  target_prop (key (self w)) w' =
    Some (match value with None => current (self w) | Some v => v end).
Proof.
  unfold setTargetValue, write_target, target_prop, getTarget.
  destruct (Tween.targets (tween w) !! targetIndex (self w)) as [t|] eqn:Ht;
    [ | discriminate ].
  intros [= <-]. simpl. repeat split.
  rewrite list_lookup_insert_eq by (now apply lookup_lt_Some in Ht).
  simpl. now rewrite lookup_insert_eq.
Qed.

Lemma setState_returns s w :
  exists w', setState s w = Ok w' /\
    quiet w w' /\ state (self w') = s /\ tween w' = tween w /\
    isCountdown (self w') =
      match s with DELAY | HOLD_DELAY | REPEAT_DELAY => true | _ => false end /\
    trace w' = Enter s :: trace w.
Proof.
  destruct w as [[] ? ?].
  destruct s; (eexists; split; [ reflexivity | ]); now repeat split.
Qed.

Lemma perform_same_config MAX c w w' :
  perform MAX c w = Ok w' -> same_config (self w) (self w').
Proof.
  destruct c; simpl; intros H.
  - destruct (reset_returns MAX w) as (w1 & Hr & Hc & _). congruence.
  - now apply onRepeat_returns in H.
  - apply setStateFromEnd_returns in H.
    destruct (yoyo (self w)); [ now apply onRepeat_returns in H | ].
    destruct (num_ltb _ _); [ now apply onRepeat_returns in H | ].
    apply H.
  - apply setStateFromStart_returns in H.
    destruct (num_ltb _ _); [ now apply onRepeat_returns in H | ].
    apply H.
  - apply setTargetValue_returns in H. destruct H as (-> & _).
    apply same_config_refl.
  - destruct (setState_returns s w) as (w1 & Hs & Hq & _).
    assert (w1 = w') as <- by congruence. apply Hq.
Qed.

Lemma perform_all_same_config MAX cs w w' :
  perform_all MAX cs w = Ok w' -> same_config (self w) (self w').
Proof.
  revert w. induction cs as [|c cs IH]; simpl; intros w.
  - intros [= <-]. apply same_config_refl.
  - unfold andThen. destruct (perform MAX c w) as [w1|] eqn:Hc; [ | discriminate ].
    intros H. eapply same_config_trans.
    + eapply perform_same_config, Hc.
    + now apply IH.
Qed.

Lemma initialize_duration_pos ti gd dur yy hd rp rd fx fy ext :
  0 < duration (initialize ti gd dur yy hd rp rd fx fy ext).
Proof.
  simpl. destruct (num_leb dur 0) eqn:Hd.
  - reflexivity.
  - now apply num_leb_gt.
Qed.

(** C9. The constructor stores 0.01 for every duration that is zero or
    negative and stores a positive duration as given; the stored duration
    is therefore positive, no later call to a method of the unit changes
    it, and the quotient [diff / duration] that [onRepeat] stores in
    [progress] is a genuine quotient: times the duration it gives back
    [diff]. *)
Theorem duration_clamped_positive MAX ti gd dur yy hd rp rd fx fy ext tw tr :
  let d0 := initialize ti gd dur yy hd rp rd fx fy ext in
  (dur <= 0 -> duration d0 = Q2Qc 0.01) /\
  (0 < dur -> duration d0 = dur) /\
  0 < duration d0 /\
  forall cs w',
    perform_all MAX cs (mkWorld d0 tw tr) = Ok w' ->
    duration (self w') = duration d0 /\
    0 < duration (self w') /\
    forall diff setStart isYoyo w'',
      onRepeat diff setStart isYoyo w' = Ok w'' ->
      duration (self w'') = duration d0 /\
      progress (self w'') * duration (self w'') = diff.
Proof.
  intros d0. split; [ | split; [ | split ] ].
  - intros Hd. apply num_leb_le in Hd. subst d0. simpl. now rewrite Hd.
  - intros Hd. apply num_leb_gt in Hd. subst d0. simpl. now rewrite Hd.
  - apply initialize_duration_pos.
  - intros cs w' Hrun.
    apply perform_all_same_config in Hrun. simpl in Hrun.
    destruct Hrun as (_ & Hdur & _).
    pose proof (initialize_duration_pos ti gd dur yy hd rp rd fx fy ext) as Hpos.
    fold d0 in Hpos. split; [ exact Hdur | ]. split; [ now rewrite Hdur | ].
    intros diff setStart isYoyo w'' Hrep.
    apply onRepeat_returns in Hrep.
    destruct Hrep as ((_ & Hdur' & _) & Hprog & _).
    split; [ congruence | ].
    rewrite Hprog, Hdur', Hdur. field.
    intros Hz. rewrite Hz in Hpos. discriminate.
Qed.

Lemma duration_clamped_positive_witness :
  duration (initialize 0 (const_resolver 0) (Q2Qc (-5)) false 0 0 0 false false
              (extension_for "x" 0 (Q2Qc 100))) = Q2Qc 0.01 /\
  duration (initialize 0 (const_resolver 0) (Q2Qc 250) false 0 0 0 false false
              (extension_for "x" 0 (Q2Qc 100))) = Q2Qc 250 /\
  exists w',
    perform_all MAX_sample [call_reset; call_setStateFromEnd 0]
      (mkWorld (initialize 0 (const_resolver 0) (Q2Qc (-5)) false 0 0 0 false false
                  (extension_for "x" 0 (Q2Qc 100)))
         (fresh_tween (plain_target "x" 0)) []) = Ok w' /\
    duration (self w') = Q2Qc 0.01.
Proof.
  split; [ | split ].
  - apply (duration_clamped_positive MAX_sample 0 (const_resolver 0) (Q2Qc (-5))
             false 0 0 0 false false (extension_for "x" 0 (Q2Qc 100))
             (fresh_tween (plain_target "x" 0)) []).
    now vm_compute.
  - apply (duration_clamped_positive MAX_sample 0 (const_resolver 0) (Q2Qc 250)
             false 0 0 0 false false (extension_for "x" 0 (Q2Qc 100))
             (fresh_tween (plain_target "x" 0)) []).
    now vm_compute.
  - eexists. split; [ vm_compute; reflexivity | ].
    destruct (duration_clamped_positive MAX_sample 0 (const_resolver 0) (Q2Qc (-5))
                false 0 0 0 false false (extension_for "x" 0 (Q2Qc 100))
                (fresh_tween (plain_target "x" 0)) []) as (_ & _ & _ & H).
    apply (H [call_reset; call_setStateFromEnd 0]). vm_compute; reflexivity.
Defined.

(** ** Partial correctness *)

Lemma ensures_elim a Q w w' : ensures a Q w -> a w = Ok w' -> Q w'.
Proof. unfold ensures. intros H E. now rewrite E in H. Qed.

Lemma ensures_intro a (Q : World -> Prop) w :
  (forall w', a w = Ok w' -> Q w') -> ensures a Q w.
Proof. unfold ensures. destruct (a w); auto. Qed.

Lemma ensures_step f (Q : World -> Prop) w : Q (f w) -> ensures (step f) Q w.
Proof. trivial. Qed.

Lemma ensures_skip (Q : World -> Prop) w : Q w -> ensures skip Q w.
Proof. trivial. Qed.

Lemma ensures_seq a b Q w : ensures a (ensures b Q) w -> ensures (a ;; b) Q w.
Proof. unfold ensures, andThen. now destruct (a w). Qed.

Lemma ensures_drop a b Q w : (forall w1, ensures b Q w1) -> ensures (a ;; b) Q w.
Proof. unfold ensures, andThen. intros H. destruct (a w); [ apply H | trivial ]. Qed.

Lemma ensures_cond c a b Q w :
  (c w = true -> ensures a Q w) -> (c w = false -> ensures b Q w) ->
  ensures (cond c a b) Q w.
Proof.
  unfold ensures, cond. destruct (c w); intros Ha Hb; [ apply Ha | apply Hb ]; reflexivity.
Qed.

Lemma ensures_when c a (Q : World -> Prop) w :
  (c w = true -> ensures a Q w) -> (c w = false -> Q w) ->
  ensures (when c a) Q w.
Proof. intros. now apply ensures_cond. Qed.

Lemma ensures_enter s c (Q : World -> Prop) w :
  Q (emit (Enter s) (on_self (set_isCountdown c) (on_self (set_state s) w))) ->
  ensures (enter s c) Q w.
Proof. trivial. Qed.

Lemma ensures_write_target k v (Q : World -> Prop) w :
  (forall t, getTarget w = Some t ->
     Q (on_tween (fun tw => Tween.set_targets
          (<[targetIndex (self w) :=
               Target.set_props (<[k := v w]> (Target.props t)) t]>
             (Tween.targets tw)) tw) w)) ->
  ensures (write_target k v) Q w.
Proof.
  unfold ensures, write_target. destruct (getTarget w); [ | trivial ].
  intros H. now apply H.
Qed.

(** ** The repeat pause *)

Lemma target_prop_written w t k v :
  getTarget w = Some t ->
  target_prop k
    (on_tween (fun tw => Tween.set_targets
       (<[targetIndex (self w) :=
            Target.set_props (<[k := v]> (Target.props t)) t]>
          (Tween.targets tw)) tw) w) = Some v.
Proof.
  unfold target_prop, getTarget. intros Ht. simpl.
  rewrite list_lookup_insert_eq by (now apply lookup_lt_Some in Ht).
  simpl. now rewrite lookup_insert_eq.
Qed.

(** A property key other than ["texture"]: a call that ends in
    [REPEAT_DELAY] has set [current] to [start] and written it. *)
Lemma onRepeat_pause_writes diff setStart w w' :
  key (self w) <> "texture" ->
  onRepeat diff setStart false w = Ok w' ->
  state (self w') = REPEAT_DELAY ->
  current (self w') = start (self w') /\
  target_prop (key (self w)) w' = Some (start (self w')).
Proof.
  intros Hk.
  apply (ensures_elim _
    (fun w' => state (self w') = REPEAT_DELAY ->
       current (self w') = start (self w') /\
       target_prop (key (self w)) w' = Some (start (self w')))).
  unfold onRepeat, ensures at 1. cbv beta zeta.
  match goal with
  | |- match ?a w with _ => _ end =>
      change (ensures a
                (fun w' => state (self w') = REPEAT_DELAY ->
                   current (self w') = start (self w') /\
                   target_prop (key (self w)) w' = Some (start (self w'))) w)
  end.
  apply String.eqb_neq in Hk. rewrite Hk. simpl negb.
  do 7 (apply ensures_drop; intros ?).
  apply ensures_cond; intros _.
  - apply ensures_drop. intros u.
    apply ensures_seq, ensures_when; [ intros _ | discriminate ].
    apply ensures_seq, ensures_step, ensures_write_target. intros t Ht.
    apply ensures_enter. intros _.
    destruct u as [d tw tr]. destruct_unit d.
    unfold target_prop, getTarget in *. simpl in *.
    split; [ reflexivity | ].
    rewrite list_lookup_insert_eq by (eapply lookup_lt_Some; eassumption).
    simpl. now rewrite lookup_insert_eq.
  - unfold setPlayingForwardState, dispatchEvent.
    apply ensures_seq, ensures_enter, ensures_step. discriminate.
Qed.

(** ** Invariants *)

Lemma preserves_elim I a w w' : preserves I a -> I w -> a w = Ok w' -> I w'.
Proof. intros H Hw. apply ensures_elim. now apply H. Qed.

Lemma preserves_skip I : preserves I skip.
Proof. now intros w Hw. Qed.

Lemma preserves_seq I a b : preserves I a -> preserves I b -> preserves I (a ;; b).
Proof.
  intros Ha Hb w Hw. apply ensures_seq.
  specialize (Ha w Hw). unfold ensures in *.
  destruct (a w) as [w1|]; [ | trivial ]. now apply Hb.
Qed.

Lemma preserves_cond I c a b :
  (forall w, I w -> c w = true -> ensures a I w) ->
  (forall w, I w -> c w = false -> ensures b I w) ->
  preserves I (cond c a b).
Proof. intros Ha Hb w Hw. apply ensures_cond; auto. Qed.

Lemma preserves_when I c a :
  (forall w, I w -> c w = true -> ensures a I w) -> preserves I (when c a).
Proof. intros Ha. apply preserves_cond; [ exact Ha | now intros w Hw _ ]. Qed.

Lemma preserves_step I f : (forall w, I w -> I (f w)) -> preserves I (step f).
Proof. intros Hf w Hw. now apply ensures_step, Hf. Qed.

Lemma preserves_enter I s c :
  (forall w, I w ->
     I (emit (Enter s) (on_self (set_isCountdown c) (on_self (set_state s) w)))) ->
  preserves I (enter s c).
Proof. intros H w Hw. now apply ensures_enter, H. Qed.

(** ** The reserved key *)

(** With the key ["texture"], [onRepeat] calls no value resolver and writes
    no value: [start], [end] and [current] stay as they are, and so does
    the tween when neither flip is requested. *)
Lemma onRepeat_texture_frame diff setStart isYoyo w w' :
  key (self w) = "texture" ->
  onRepeat diff setStart isYoyo w = Ok w' ->
  current (self w') = current (self w) /\
  start (self w') = start (self w) /\
  end_ (self w') = end_ (self w) /\
  (flipX (self w) = false -> flipY (self w) = false -> tween w' = tween w).
Proof.
  intros Hk.
  set (I := fun u : World =>
    key (self u) = key (self w) /\
    flipX (self u) = flipX (self w) /\ flipY (self u) = flipY (self w) /\
    current (self u) = current (self w) /\ start (self u) = start (self w) /\
    end_ (self u) = end_ (self w) /\
    (flipX (self w) = false -> flipY (self w) = false -> tween u = tween w)).
  assert (Hw : I w) by (now repeat split).
  intros H. eapply (preserves_elim I) in H; [ apply H | | exact Hw ].
  clear Hw. intros u Hu. unfold onRepeat, ensures. cbv beta zeta.
  match goal with
  | |- match ?a u with _ => _ end =>
      change (ensures a I u); apply (fun K : preserves I a => K u Hu)
  end.
  destruct Hu as (Hku & _). rewrite Hku, Hk. clear u Hku. simpl.
  assert (Hself : forall f,
    (forall d, key (f d) = key d /\ flipX (f d) = flipX d /\ flipY (f d) = flipY d /\
               current (f d) = current d /\ start (f d) = start d /\
               end_ (f d) = end_ d) ->
    preserves I (step (on_self f))).
  { intros f Hf. apply preserves_step. intros u (Hkk & Hx & Hy & Hc & Hs & He & Ht).
    destruct (Hf (self u)) as (Hkk' & Hx' & Hy' & Hc' & Hs' & He'). unfold I. simpl.
    rewrite Hkk', Hx', Hy', Hc', Hs', He'. now repeat split. }
  assert (Hemit : forall e, preserves I (step (emit e))).
  { intros e. apply preserves_step. now intros u Hu. }
  assert (Henter : forall s c, preserves I (enter s c)).
  { intros s c. unfold enter. repeat apply preserves_seq; auto;
      apply Hself; intros d; now destruct d. }
  assert (Htoggle : forall pick e (flag : BaseTweenData -> bool),
    (forall u, I u -> flag (self u) = true ->
       flipX (self w) = true \/ flipY (self w) = true) ->
    preserves I (when (fun u => flag (self u)) (call_toggle pick e))).
  { intros pick e flag Hflag. apply preserves_when. intros u Hu Hf.
    unfold ensures, call_toggle. destruct (getTarget u); [ | trivial ].
    destruct (pick t); [ | trivial ].
    destruct Hu as (Hkk & Hx & Hy & Hc & Hs & He & Ht). unfold I. simpl.
    repeat split; try assumption.
    intros Hx0 Hy0. destruct (Hflag u) as [E|E]; try congruence.
    now repeat split. }
  apply preserves_seq; [ apply Hself; intros d; now destruct d | ].
  apply preserves_seq; [ apply Hself; intros d; now destruct d | ].
  apply preserves_seq.
  { apply Htoggle. intros u (_ & Hx & _) Hf. left. congruence. }
  apply preserves_seq.
  { apply Htoggle. intros u (_ & _ & Hy & _) Hf. right. congruence. }
  apply preserves_seq; [ apply preserves_when; discriminate | ].
  destruct isYoyo.
  - apply preserves_seq; [ apply Henter | apply Hemit ].
  - apply preserves_seq; [ apply Hself; intros d; now destruct d | ].
    apply preserves_seq; [ apply preserves_when; discriminate | ].
    apply preserves_cond; intros u Hu _.
    + apply (fun K : preserves I _ => K u Hu).
      apply preserves_seq; [ apply Hself; intros d; now destruct d | ].
      apply preserves_seq; [ apply preserves_when; discriminate | apply Henter ].
    + apply (fun K : preserves I _ => K u Hu).
      apply preserves_seq; [ apply Henter | apply Hemit ].
Qed.

(** * Properties of [onRepeat] and the end policies *)

Lemma num_ltb_irrefl a : num_ltb a a = false.
Proof. apply num_ltb_ge. unfold Qcle. apply Qle_refl. Qed.

(** C1 (as amended). A call of [onRepeat] on the non-yoyo branch with
    [repeatDelay > 0], made on a unit whose target is there, returns with
    [elapsed = repeatDelay - diff] and the unit in [REPEAT_DELAY]. For every
    property key other than ["texture"] it has set [current] to [start] and
    written that value to the target's property; for the key ["texture"] it
    leaves [current], [start], [end] and, flips apart, the target as they
    were. *)
Theorem onRepeat_pause diff setStart w :
  0 < repeatDelay (self w) ->
  target_ready w = true ->
  exists w',
    onRepeat diff setStart false w = Ok w' /\
    elapsed (self w') = repeatDelay (self w) - diff /\
    state (self w') = REPEAT_DELAY /\
    isCountdown (self w') = true /\
    (key (self w) <> "texture" ->
       current (self w') = start (self w') /\
       target_prop (key (self w)) w' = Some (start (self w'))) /\
    (key (self w) = "texture" ->
       current (self w') = current (self w) /\
       start (self w') = start (self w) /\
       end_ (self w') = end_ (self w) /\
       (flipX (self w) = false -> flipY (self w) = false -> tween w' = tween w)).
Proof.
  intros Hrd Hready.
  destruct (proj1 (returns_ex _ _ _) (keeps_ready_onRepeat diff setStart false w Hready))
    as (w' & Hrun & _).
  exists w'. split; [ exact Hrun | ].
  pose proof (onRepeat_returns _ _ _ _ _ Hrun) as (_ & _ & _ & _ & _ & Hrep & _).
  destruct (Hrep eq_refl) as (_ & Hbranch).
  apply num_ltb_lt in Hrd. rewrite Hrd in Hbranch.
  destruct Hbranch as (Hst & Hcd & Hel).
  split; [ exact Hel | ]. split; [ exact Hst | ]. split; [ exact Hcd | ]. split.
  - intros Hk. now apply (onRepeat_pause_writes diff setStart w w').
  - intros Hk. now apply (onRepeat_texture_frame diff setStart false w w').
Qed.

Lemma onRepeat_pause_witness :
  exists w',
    onRepeat (Q2Qc 10) true false x_world = Ok w' /\
    elapsed (self w') = Q2Qc 50 - Q2Qc 10 /\
    state (self w') = REPEAT_DELAY /\
    target_prop "x" w' = Some (start (self w')).
Proof.
  destruct (onRepeat_pause (Q2Qc 10) true x_world) as (w' & Hrun & He & Hs & _ & Hx & _).
  - reflexivity.
  - reflexivity.
  - exists w'. repeat split; try assumption.
    apply Hx. discriminate.
Defined.

(** C1, as stated, fails for the key ["texture"]: the unit enters
    [REPEAT_DELAY] with [current] still 5, not [start = 3], and the
    target's property still 7. *)
Lemma onRepeat_texture_counterexample :
  0 < repeatDelay (self texture_world) /\
  exists w',
    onRepeat (Q2Qc 10) true false texture_world = Ok w' /\
    state (self w') = REPEAT_DELAY /\
    current (self w') <> start (self w') /\
    target_prop (key (self texture_world)) w' <> Some (start (self w')).
Proof.
  split; [ reflexivity | ].
  eexists. split; [ vm_compute; reflexivity | ].
  split; [ reflexivity | ]. split.
  - intros H. apply (f_equal this) in H. vm_compute in H. discriminate.
  - intros H. vm_compute in H. discriminate.
Qed.

(** C2. [setStateFromEnd] decides in this order: with [yoyo] set it calls
    [onRepeat(diff, true, true)], whatever [repeatCounter] is; otherwise,
    with [repeatCounter > 0], it calls [onRepeat(diff, true, false)];
    otherwise the unit becomes [COMPLETE]. [setStateFromStart] calls
    [onRepeat(diff, false)] when [repeatCounter > 0] and otherwise makes the
    unit [COMPLETE]. *)
Theorem end_policies_priority diff w :
  (yoyo (self w) = true ->
     setStateFromEnd diff w = onRepeat diff true true w) /\
  (yoyo (self w) = false -> 0 < repeatCounter (self w) ->
     setStateFromEnd diff w = onRepeat diff true false w) /\
  (yoyo (self w) = false -> repeatCounter (self w) <= 0 ->
     setStateFromEnd diff w = setCompleteState w) /\
  (0 < repeatCounter (self w) ->
     setStateFromStart diff w = onRepeat diff false false w) /\
  (repeatCounter (self w) <= 0 ->
     setStateFromStart diff w = setCompleteState w) /\
  exists w',
    setCompleteState w = Ok w' /\ state (self w') = COMPLETE /\
    isCountdown (self w') = false /\ quiet w w' /\ tween w' = tween w.
Proof.
  unfold setStateFromEnd, setStateFromStart, cond.
  split; [ | split; [ | split; [ | split; [ | split ] ] ] ].
  - now intros ->.
  - intros -> Hc. apply num_ltb_lt in Hc. now rewrite Hc.
  - intros -> Hc. apply num_ltb_ge in Hc. now rewrite Hc.
  - intros Hc. apply num_ltb_lt in Hc. now rewrite Hc.
  - intros Hc. apply num_ltb_ge in Hc. now rewrite Hc.
  - destruct (setState_returns COMPLETE w) as (w' & Hs & Hq & Hst & Htw & Hcd & _).
    now exists w'.
Qed.

Lemma end_policies_priority_witness :
  setStateFromEnd 0 x_world = onRepeat 0 true false x_world /\
  setStateFromStart 0 x_world = onRepeat 0 false false x_world /\
  setStateFromEnd 0 (on_self (set_repeatCounter 0) x_world) =
    setCompleteState (on_self (set_repeatCounter 0) x_world) /\
  setStateFromStart 0 (on_self (set_repeatCounter 0) x_world) =
    setCompleteState (on_self (set_repeatCounter 0) x_world).
Proof.
  destruct (end_policies_priority 0 x_world) as (_ & H1 & _ & H2 & _).
  destruct (end_policies_priority 0 (on_self (set_repeatCounter 0) x_world))
    as (_ & _ & H3 & _ & H4 & _).
  split; [ apply H1; reflexivity | ].
  split; [ apply H2; reflexivity | ].
  split; [ apply H3; [ reflexivity | now vm_compute ] | ].
  apply H4. now vm_compute.
Defined.

(** C4. When a forward pass ends with overshoot [k], [0 < k < duration],
    and the unit goes to [PLAYING_BACKWARD] (yoyo) or straight back to
    [PLAYING_FORWARD] (a repeat with no repeat delay), [elapsed] is [k] and
    [progress] is [k / duration] afterwards. *)
Theorem overshoot_conserved k w :
  0 < k -> k < duration (self w) ->
  target_ready w = true ->
  yoyo (self w) = true \/
  (yoyo (self w) = false /\ 0 < repeatCounter (self w) /\ repeatDelay (self w) = 0) ->
  exists w',
    setStateFromEnd k w = Ok w' /\
    state (self w') =
      (if yoyo (self w) then PLAYING_BACKWARD else PLAYING_FORWARD) /\
    elapsed (self w') = k /\
    progress (self w') = k / duration (self w') /\
    progress (self w') * duration (self w') = k.
Proof.
  intros Hk0 Hkd Hready Hcase.
  destruct (proj1 (returns_ex _ _ _) (keeps_ready_setStateFromEnd k w Hready))
    as (w' & Hrun & _).
  exists w'. split; [ exact Hrun | ].
  apply setStateFromEnd_returns in Hrun.
  assert (Hd : duration (self w) <> 0).
  { intros Hz. rewrite Hz in Hkd. clear - Hk0 Hkd. num_lra. }
  destruct Hcase as [Hy | (Hy & Hc & Hrd)]; rewrite Hy in *.
  - apply onRepeat_returns in Hrun.
    destruct Hrun as ((_ & Hdur & _) & Hp & _ & _ & Hyoyo & _).
    destruct (Hyoyo eq_refl) as (Hs & _ & _ & He).
    rewrite Hdur, Hp. repeat split; try assumption. now field.
  - apply num_ltb_lt in Hc. rewrite Hc in Hrun.
    apply onRepeat_returns in Hrun.
    destruct Hrun as ((_ & Hdur & _) & Hp & _ & _ & _ & Hrep & _).
    destruct (Hrep eq_refl) as (_ & Hbranch).
    rewrite Hrd, num_ltb_irrefl in Hbranch. destruct Hbranch as (Hs & _ & He).
    rewrite Hdur, Hp. repeat split; try assumption. now field.
Qed.

Lemma overshoot_conserved_witness :
  exists w',
    setStateFromEnd (Q2Qc 30) (on_self (set_repeatCounter 1)
      (mkWorld (initialize 0 (const_resolver 0) (Q2Qc 100) true 0 1 0 false false
                  (extension_for "x" 0 (Q2Qc 100)))
         (fresh_tween (plain_target "x" 0)) [])) = Ok w' /\
    state (self w') = PLAYING_BACKWARD /\
    elapsed (self w') = Q2Qc 30.
Proof.
  destruct (overshoot_conserved (Q2Qc 30) (on_self (set_repeatCounter 1)
      (mkWorld (initialize 0 (const_resolver 0) (Q2Qc 100) true 0 1 0 false false
                  (extension_for "x" 0 (Q2Qc 100)))
         (fresh_tween (plain_target "x" 0)) [])))
    as (w' & Hrun & Hs & He & _).
  - reflexivity.
  - reflexivity.
  - reflexivity.
  - left. reflexivity.
  - exists w'. repeat split; assumption.
Defined.

(** C10. A call of [onRepeat] that returns has dispatched at most one
    notification: [TWEEN_YOYO], and nothing else, exactly when [isYoyo] is
    true (the unit is then in [PLAYING_BACKWARD]); [TWEEN_REPEAT], and
    nothing else, exactly when [isYoyo] is false and [repeatDelay <= 0] (the
    unit is then in [PLAYING_FORWARD]); none at all when the unit enters
    [REPEAT_DELAY]. *)
Theorem onRepeat_dispatches diff setStart isYoyo w w' :
  onRepeat diff setStart isYoyo w = Ok w' ->
  exists new,
    trace w' = new ++ trace w /\
    (length (dispatched new) <= 1)%nat /\
    (dispatched new = [TWEEN_YOYO] <-> isYoyo = true) /\
    (dispatched new = [TWEEN_REPEAT] <->
       isYoyo = false /\ repeatDelay (self w) <= 0) /\
    (dispatched new = [] <-> isYoyo = false /\ 0 < repeatDelay (self w)) /\
    (isYoyo = true -> state (self w') = PLAYING_BACKWARD) /\
    (isYoyo = false -> repeatDelay (self w) <= 0 ->
       state (self w') = PLAYING_FORWARD) /\
    (isYoyo = false -> 0 < repeatDelay (self w) ->
       state (self w') = REPEAT_DELAY).
Proof.
  intros Hrun. apply onRepeat_returns in Hrun.
  destruct Hrun as (_ & _ & _ & _ & Hyoyo & Hrep & new & Htr & _ & Hd).
  exists new. split; [ exact Htr | ].
  destruct isYoyo.
  - destruct (Hyoyo eq_refl) as (Hs & _).
    rewrite Hd. simpl. repeat split; try easy; try lia.
    all: intros (? & ?); discriminate.
  - destruct (Hrep eq_refl) as (_ & Hbranch).
    destruct (num_ltb 0 (repeatDelay (self w))) eqn:Hrd.
    + apply num_ltb_lt in Hrd. destruct Hbranch as (Hs & _).
      rewrite Hd. simpl. repeat split; try easy; try lia.
      * intros (_ & Hle). now apply Qcle_not_lt in Hle.
      * intros _ Hle. now apply Qcle_not_lt in Hle.
    + apply num_ltb_ge in Hrd. destruct Hbranch as (Hs & _).
      rewrite Hd. simpl. repeat split; try easy; try lia.
      * intros (_ & Hlt). now apply Qcle_not_lt in Hrd.
      * intros _ Hlt. now apply Qcle_not_lt in Hrd.
Qed.

Lemma onRepeat_dispatches_witness :
  exists w' new,
    onRepeat (Q2Qc 10) true false x_world = Ok w' /\
    trace w' = new ++ trace x_world /\ dispatched new = [].
Proof.
  eexists.
  assert (H : onRepeat (Q2Qc 10) true false x_world = Ok _)
    by (vm_compute; reflexivity).
  destruct (onRepeat_dispatches _ _ _ _ _ H) as (new & Htr & _ & _ & _ & Hnone & _).
  exists new. split; [ exact H | ]. split; [ exact Htr | ].
  apply Hnone. split; reflexivity.
Defined.

(** * Properties of [reset] *)

(** A tick of a unit that has repeats left does not complete it, and uses
    up at most one repeat. *)
Lemma update_not_complete delta w w' :
  update delta w = Ok w' ->
  state (self w) <> COMPLETE ->
  0 < repeatCounter (self w) ->
  state (self w') <> COMPLETE /\
  repeatCounter (self w) - 1 <= repeatCounter (self w').
Proof.
  intros Hrun Hs Hc. apply update_returns in Hrun.
  assert (Hkeep : forall u, quiet w u -> state (self u) = state (self w) ->
            state (self u) <> COMPLETE /\
            repeatCounter (self w) - 1 <= repeatCounter (self u)).
  { intros u (_ & Hq & _) Hst. split; [ congruence | ]. rewrite Hq. num_lra. }
  assert (Hmove : forall u s, quiet w u -> state (self u) = s -> s <> COMPLETE ->
            state (self u) <> COMPLETE /\
            repeatCounter (self w) - 1 <= repeatCounter (self u)).
  { intros u s (_ & Hq & _) Hst Hne. split; [ congruence | ]. rewrite Hq. num_lra. }
  assert (Hrep : forall u diff ss iy, quiet w u ->
            onRepeat diff ss iy u = Ok w' ->
            state (self w') <> COMPLETE /\
            repeatCounter (self w) - 1 <= repeatCounter (self w')).
  { intros u diff ss iy (_ & Hq & _) H. apply onRepeat_returns in H.
    destruct H as (_ & _ & _ & _ & Hy & Hn & _). destruct iy.
    - destruct (Hy eq_refl) as (Hst & _ & Hcnt & _). rewrite Hst, Hcnt, Hq.
      split; [ discriminate | num_lra ].
    - destruct (Hn eq_refl) as (Hcnt & Hbr). rewrite Hcnt, Hq.
      split; [ | num_lra ].
      destruct (num_ltb 0 (repeatDelay (self u))); destruct Hbr as (E & _);
        rewrite E; discriminate. }
  assert (Hend : forall u diff, quiet w u ->
            setStateFromEnd diff u = Ok w' ->
            state (self w') <> COMPLETE /\
            repeatCounter (self w) - 1 <= repeatCounter (self w')).
  { intros u diff Hq H. apply setStateFromEnd_returns in H.
    destruct (yoyo (self u)); [ now apply (Hrep u diff true true) | ].
    destruct Hq as (Hcfg & Hcnt & Hrest).
    apply num_ltb_lt in Hc. rewrite Hcnt, Hc in H.
    now apply (Hrep u diff true false). }
  assert (Hstart : forall u diff, quiet w u ->
            setStateFromStart diff u = Ok w' ->
            state (self w') <> COMPLETE /\
            repeatCounter (self w) - 1 <= repeatCounter (self w')).
  { intros u diff Hq H. apply setStateFromStart_returns in H.
    destruct Hq as (Hcfg & Hcnt & Hrest).
    apply num_ltb_lt in Hc. rewrite Hcnt, Hc in H.
    now apply (Hrep u diff false false). }
  destruct (isCountdown (self w)).
  - cbv zeta in Hrun. destruct (num_leb _ _).
    + destruct (state (self w)) eqn:Hst;
        try (destruct Hrun as (Hq & Hst' & _); now apply (Hmove w' _ Hq Hst'));
        try (destruct Hrun as (Hq & Hst' & _); apply (Hkeep w' Hq); congruence).
      destruct Hrun as (u & Hq & _ & H). exact (Hend u _ Hq H).
    + destruct Hrun as (Hq & Hst' & _). now apply Hkeep.
  - destruct (state (self w)) eqn:Hst; try congruence;
      try (subst w'; apply Hkeep; [ apply quiet_refl | exact Hst ]).
    + destruct Hrun as (Hq & Hst' & _). now apply (Hmove w' _ Hq Hst').
    + cbv zeta in Hrun. destruct (num_leb _ _).
      * destruct (num_ltb 0 (hold (self w))).
        -- destruct Hrun as (Hq & Hst' & _). now apply (Hmove w' _ Hq Hst').
        -- destruct Hrun as (u & Hq & _ & H). exact (Hend u _ Hq H).
      * destruct Hrun as (Hq & Hst' & _). now apply (Hmove w' _ Hq Hst').
    + cbv zeta in Hrun. destruct (num_leb _ _).
      * destruct Hrun as (u & Hq & _ & H). exact (Hstart u _ Hq H).
      * destruct Hrun as (Hq & Hst' & _). now apply (Hmove w' _ Hq Hst').
Qed.

(** Fewer ticks than repeats left never complete the unit. *)
Lemma updates_not_complete deltas : forall w w',
  updates deltas w = Ok w' ->
  state (self w) <> COMPLETE ->
  num_of_nat (length deltas) <= repeatCounter (self w) ->
  state (self w') <> COMPLETE.
Proof.
  induction deltas as [|delta rest IH]; simpl; intros w w' Hrun Hs Hn.
  - now injection Hrun as <-.
  - unfold andThen in Hrun.
    destruct (update delta w) as [w1|] eqn:Hup; [ | discriminate ].
    rewrite num_of_nat_S in Hn. pose proof (num_of_nat_nonneg (length rest)) as Hpos.
    destruct (update_not_complete _ _ _ Hup Hs) as (Hs1 & Hc1).
    + clear - Hn Hpos. num_lra.
    + apply (IH w1 w' Hrun Hs1). clear - Hn Hc1. num_lra.
Qed.

(** C6. [reset] computes [totalDuration] as [delay + t1], plus
    [t2 * repeat] when [repeat > 0], or plus [t2 * MAX] when [repeat = -1],
    where [t1 = duration + hold (+ duration if yoyo)] and
    [t2 = t1 + repeatDelay]. When [repeat = -1] the owning tween becomes
    infinite and [repeatCounter] is [MAX], so that no sequence of at most
    [MAX] ticks brings the unit to [COMPLETE]. *)
Theorem reset_total_duration MAX w :
  let d := self w in
  let t1 := duration d + hold d + (if yoyo d then duration d else 0) in
  let t2 := t1 + repeatDelay d in
  exists w',
    reset MAX w = Ok w' /\
    delay (self w') = resolve getDelay 0 w /\
    (repeat d = Q2Qc (-1) ->
       totalDuration (self w') = delay (self w') + t1 + t2 * MAX /\
       Tween.isInfinite (tween w') = true /\
       repeatCounter (self w') = MAX /\
       forall deltas w'',
         num_of_nat (length deltas) <= MAX ->
         updates deltas w' = Ok w'' ->
         state (self w'') <> COMPLETE) /\
    (0 < repeat d ->
       totalDuration (self w') = delay (self w') + t1 + t2 * repeat d /\
       Tween.isInfinite (tween w') = Tween.isInfinite (tween w) /\
       repeatCounter (self w') = repeat d) /\
    (repeat d <= 0 -> repeat d <> Q2Qc (-1) ->
       totalDuration (self w') = delay (self w') + t1 /\
       Tween.isInfinite (tween w') = Tween.isInfinite (tween w) /\
       repeatCounter (self w') = repeat d).
Proof.
  intros d t1 t2.
  destruct (reset_returns MAX w)
    as (w' & Hrun & _ & _ & _ & _ & _ & Hdl & Hcnt & Htot & _ & Hst & _ & _ & _ & _ & _ & Hinf & _).
  cbv zeta in *.
  exists w'. split; [ exact Hrun | ]. split; [ exact Hdl | ].
  rewrite Hdl, Htot, Hcnt, Hinf. subst t2 t1. subst d.
  split; [ | split ].
  - intros Hrep. apply num_eqb_eq in Hrep. rewrite Hrep.
    split; [ destruct (yoyo (self w)); ring | ]. split; [ reflexivity | ].
    split; [ reflexivity | ].
    intros deltas w'' Hn Hrun'. apply (updates_not_complete deltas w' w'' Hrun').
    + rewrite Hst. destruct (num_ltb 0 (resolve getDelay 0 w)); discriminate.
    + rewrite Hcnt, Hrep. exact Hn.
  - intros Hrep.
    assert (Hne : num_eqb (repeat (self w)) (Q2Qc (-1)) = false).
    { apply num_eqb_neq. intros E. rewrite E in Hrep. discriminate. }
    apply num_ltb_lt in Hrep. rewrite Hne, Hrep.
    split; [ destruct (yoyo (self w)); ring | ]. now split.
  - intros Hrep Hne. apply num_eqb_neq in Hne. apply num_ltb_ge in Hrep.
    rewrite Hne, Hrep.
    split; [ destruct (yoyo (self w)); ring | ]. now split.
Qed.

Lemma reset_total_duration_witness :
  exists w',
    reset MAX_sample
      (mkWorld (initialize 0 (const_resolver (Q2Qc 20)) (Q2Qc 100) true (Q2Qc 5)
                  (Q2Qc (-1)) (Q2Qc 7) false false (extension_for "x" 0 (Q2Qc 100)))
         (fresh_tween (plain_target "x" 0)) []) = Ok w' /\
    totalDuration (self w') =
      Q2Qc 20 + (Q2Qc 100 + Q2Qc 5 + Q2Qc 100)
      + (Q2Qc 100 + Q2Qc 5 + Q2Qc 100 + Q2Qc 7) * MAX_sample /\
    Tween.isInfinite (tween w') = true /\
    forall w'', updates [Q2Qc 1000; Q2Qc 1000; Q2Qc 1000] w' = Ok w'' ->
      state (self w'') <> COMPLETE.
Proof.
  pose proof (reset_total_duration MAX_sample
      (mkWorld (initialize 0 (const_resolver (Q2Qc 20)) (Q2Qc 100) true (Q2Qc 5)
                  (Q2Qc (-1)) (Q2Qc 7) false false (extension_for "x" 0 (Q2Qc 100)))
         (fresh_tween (plain_target "x" 0)) [])) as H.
  cbv zeta in H. destruct H as (w' & Hrun & Hdl & Hforever & _).
  specialize (Hforever eq_refl). destruct Hforever as (Htot & Hinf & _ & Hnever).
  exists w'. split; [ exact Hrun | ]. split; [ | split; [ exact Hinf | ] ].
  - rewrite Htot, Hdl. apply Qc_is_canon. vm_compute. reflexivity.
  - intros w'' Hup.
    refine (Hnever [Q2Qc 1000; Q2Qc 1000; Q2Qc 1000] w'' _ Hup).
    vm_compute. intros E. discriminate E.
Defined.






(** C8. [reset] publishes the unit's summary by a max/min fold: the tween's
    [duration] becomes the larger of its current value and the unit's
    [totalDuration], its [startDelay] the smaller of its current value and
    the unit's [delay]. The [duration] never decreases, the [startDelay]
    never increases, and on a tie the tween's value stays. *)
Theorem reset_publishes_summary MAX w :
  exists w',
    reset MAX w = Ok w' /\
    let T := totalDuration (self w') in
    let dl := delay (self w') in
    let D := Tween.duration (tween w) in
    let D' := Tween.duration (tween w') in
    let S := Tween.startDelay (tween w) in
    let S' := Tween.startDelay (tween w') in
    D <= D' /\ T <= D' /\ (D' = D \/ D' = T) /\
    S' <= S /\ S' <= dl /\ (S' = S \/ S' = dl) /\
    (T <= D -> D' = D) /\ (S <= dl -> S' = S).
Proof.
  destruct (reset_returns MAX w)
    as (w' & Hrun & _ & _ & _ & _ & _ & Hdl & _ & Htot & _ & _ & _ & _ & _ &
        Hdur & Hsd & _).
  cbv zeta in *. exists w'. split; [ exact Hrun | ].
  rewrite <- Htot in Hdur. rewrite <- Hdl in Hsd. rewrite Hdur, Hsd.
  destruct (num_ltb (Tween.duration (tween w)) (totalDuration (self w'))) eqn:Ed;
  destruct (num_ltb (delay (self w')) (Tween.startDelay (tween w))) eqn:Es.
  all: try apply num_ltb_lt in Ed; try apply num_ltb_ge in Ed.
  all: try apply num_ltb_lt in Es; try apply num_ltb_ge in Es.
  all: repeat split; auto using Qcle_refl, Qclt_le_weak.
  all: intros; apply Qcle_antisym; auto using Qclt_le_weak.
Qed.

Lemma reset_publishes_summary_witness :
  exists w',
    reset MAX_sample x_world = Ok w' /\
    Tween.duration (tween x_world) <= Tween.duration (tween w') /\
    Tween.startDelay (tween w') <= Tween.startDelay (tween x_world) /\
    Tween.startDelay (tween w') = Tween.startDelay (tween x_world).
Proof.
  pose proof (reset_publishes_summary MAX_sample x_world) as H.
  cbv zeta in H.
  destruct H as (w' & Hrun & Hd & _ & _ & Hs & _ & _ & _ & Htie).
  exists w'. split; [ exact Hrun | ]. split; [ exact Hd | ]. split; [ exact Hs | ].
  apply Htie.
  destruct (reset_returns MAX_sample x_world)
    as (u & Hrun' & _ & _ & _ & _ & _ & Hdl & _).
  assert (u = w') as -> by congruence.
  rewrite Hdl. vm_compute. intros E. discriminate E.
Defined.

(** * Passes of a unit without hold or repeat delay *)

Lemma entered_app a b : entered (a ++ b) = entered a ++ entered b.
Proof.
  induction a as [|e a IH]; simpl; [ reflexivity | ].
  destruct e; simpl; now rewrite IH.
Qed.

(** The tick that ends a pass, for a unit with neither hold nor repeat
    delay: a forward pass of a yoyo unit bounces; otherwise the unit
    repeats while repeats are left, and completes when none is. *)
Lemma update_pass_end delta w w' :
  update delta w = Ok w' ->
  isCountdown (self w) = false ->
  state (self w) = PLAYING_FORWARD \/ state (self w) = PLAYING_BACKWARD ->
  duration (self w) <= elapsed (self w) + delta ->
  hold (self w) <= 0 ->
  repeatDelay (self w) <= 0 ->
  let bounce := bool_decide (state (self w) = PLAYING_FORWARD) && yoyo (self w) in
  let again := num_ltb 0 (repeatCounter (self w)) in
  same_config (self w) (self w') /\
  isCountdown (self w') = false /\
  state (self w') =
    (if bounce then PLAYING_BACKWARD
     else if again then PLAYING_FORWARD else COMPLETE) /\
  repeatCounter (self w') =
    (if bounce then repeatCounter (self w)
     else if again then repeatCounter (self w) - 1 else repeatCounter (self w)) /\
  (state (self w') <> COMPLETE ->
     elapsed (self w') = elapsed (self w) + delta - duration (self w)) /\
  entered (trace w') = state (self w') :: entered (trace w).
Proof.
  intros Hrun Hcd Hst Hend Hhold Hrd bounce again.
  set (post := fun (s : StateType) (c : Num) =>
    same_config (self w) (self w') /\ isCountdown (self w') = false /\
    state (self w') = s /\ repeatCounter (self w') = c /\
    (state (self w') <> COMPLETE ->
       elapsed (self w') = elapsed (self w) + delta - duration (self w)) /\
    entered (trace w') = state (self w') :: entered (trace w)).
  change (post (if bounce then PLAYING_BACKWARD
                else if again then PLAYING_FORWARD else COMPLETE)
               (if bounce then repeatCounter (self w)
                else if again then repeatCounter (self w) - 1
                else repeatCounter (self w))).
  apply update_returns in Hrun.
  rewrite Hcd in Hrun. apply num_leb_le in Hend. apply num_ltb_ge in Hhold.
  apply num_ltb_ge in Hrd.
  assert (Hrep : forall u ss,
    quiet w u -> trace u = trace w ->
    onRepeat (elapsed (self w) + delta - duration (self w)) ss false u = Ok w' ->
    post PLAYING_FORWARD (repeatCounter (self w) - 1)).
  { intros u ss (Hcfg & Hcnt & _) Htr H. apply onRepeat_returns in H.
    destruct H as (Hcfg' & _ & _ & _ & _ & Hn & new & Hnew & Hent & _).
    destruct (Hn eq_refl) as (Hc' & Hbr).
    pose proof Hcfg as (_ & _ & _ & _ & _ & _ & Hrdu & _).
    rewrite Hrdu, Hrd in Hbr. destruct Hbr as (Hs' & Hcd' & He').
    unfold post.
    split; [ eapply same_config_trans; eassumption | ].
    rewrite Hnew, entered_app, Hent, Hs', Htr, Hc', Hcnt.
    repeat split; try assumption. intros _. exact He'. }
  assert (Hbounce : forall u ss,
    quiet w u -> trace u = trace w ->
    onRepeat (elapsed (self w) + delta - duration (self w)) ss true u = Ok w' ->
    post PLAYING_BACKWARD (repeatCounter (self w))).
  { intros u ss (Hcfg & Hcnt & _) Htr H. apply onRepeat_returns in H.
    destruct H as (Hcfg' & _ & _ & _ & Hyo & _ & new & Hnew & Hent & _).
    destruct (Hyo eq_refl) as (Hs' & Hcd' & Hc' & He').
    unfold post.
    split; [ eapply same_config_trans; eassumption | ].
    rewrite Hnew, entered_app, Hent, Hs', Htr, Hc', Hcnt.
    repeat split; try assumption. intros _. exact He'. }
  assert (Hdone : forall u,
    quiet w u -> trace u = trace w ->
    quiet u w' /\ state (self w') = COMPLETE /\ isCountdown (self w') = false /\
    elapsed (self w') = elapsed (self u) /\ tween w' = tween u /\
    trace w' = Enter COMPLETE :: trace u ->
    post COMPLETE (repeatCounter (self w))).
  { intros u (Hcfg & Hcnt & _) Htr ((Hcfg' & Hcnt' & _) & Hs' & Hcd' & _ & _ & Htr').
    unfold post.
    split; [ eapply same_config_trans; eassumption | ].
    rewrite Htr', Htr, Hcnt', Hcnt, Hs'. repeat split; try assumption.
    intros Hne. destruct Hne. reflexivity. }
  clearbody post. subst bounce again.
  destruct Hst as [Hst | Hst]; rewrite Hst in *; cbv zeta in Hrun;
    rewrite Hend in Hrun; simpl bool_decide; simpl andb.
  - rewrite Hhold in Hrun. destruct Hrun as (u & Hq & Htr & H).
    apply setStateFromEnd_returns in H.
    pose proof Hq as (Hcfg & Hcnt & _).
    pose proof Hcfg as (_ & _ & _ & Hyy & _).
    rewrite Hyy, Hcnt in H.
    destruct (yoyo (self w)); [ exact (Hbounce u _ Hq Htr H) | ].
    destruct (num_ltb 0 (repeatCounter (self w)));
      [ exact (Hrep u _ Hq Htr H) | exact (Hdone u Hq Htr H) ].
  - destruct Hrun as (u & Hq & Htr & H).
    apply setStateFromStart_returns in H.
    pose proof Hq as (Hcfg & Hcnt & _).
    rewrite Hcnt in H.
    destruct (num_ltb 0 (repeatCounter (self w)));
      [ exact (Hrep u _ Hq Htr H) | exact (Hdone u Hq Htr H) ].
Qed.

(** A tick from [PENDING_RENDER]. *)
Lemma update_render delta w w' :
  update delta w = Ok w' ->
  isCountdown (self w) = false -> state (self w) = PENDING_RENDER ->
  same_config (self w) (self w') /\ isCountdown (self w') = false /\
  state (self w') = PLAYING_FORWARD /\
  repeatCounter (self w') = repeatCounter (self w) /\
  elapsed (self w') = elapsed (self w) /\
  entered (trace w') = PLAYING_FORWARD :: entered (trace w).
Proof.
  intros Hrun Hcd Hst. apply update_returns in Hrun. rewrite Hcd, Hst in Hrun.
  destruct Hrun as ((Hcfg & Hcnt & _) & Hs' & Hcd' & He' & Htr').
  rewrite Htr'. simpl. tauto.
Qed.

Lemma update_returns_ready delta w :
  target_ready w = true ->
  exists w', update delta w = Ok w' /\ target_ready w' = true.
Proof. intros Hw. apply returns_ex. now apply keeps_ready_update. Qed.

Lemma reset_returns_ready MAX w :
  target_ready w = true ->
  exists w', reset MAX w = Ok w' /\ target_ready w' = true.
Proof. intros Hw. apply returns_ex. now apply keeps_ready_reset. Qed.

(** C3. A yoyo bounce does not touch [repeatCounter]: a call
    [onRepeat(diff, setStart, true)] that returns leaves the unit in
    [PLAYING_BACKWARD] with the counter it had, having dispatched
    [TWEEN_YOYO] and nothing else. Hence a unit with [duration = 100],
    [yoyo], [repeat = 1], no hold and no repeat delay, once it plays
    forward, is driven by four ticks of 100 through [PLAYING_BACKWARD],
    [PLAYING_FORWARD] (the repeat, counter 1 to 0), [PLAYING_BACKWARD] and
    [COMPLETE]. *)
Theorem yoyo_keeps_repeatCounter :
  (forall diff setStart w w',
     onRepeat diff setStart true w = Ok w' ->
     state (self w') = PLAYING_BACKWARD /\
     repeatCounter (self w') = repeatCounter (self w) /\
     exists new, trace w' = new ++ trace w /\ dispatched new = [TWEEN_YOYO]) /\
  (forall MAX ti gd fx fy ext tw tr delta0,
     let w0 :=
       mkWorld (initialize ti gd (Q2Qc 100) true 0 1 0 fx fy ext) tw tr in
     target_ready w0 = true ->
     resolve getDelay 0 w0 <= 0 ->
     exists w1 w2 w3 w4 w5,
       (reset MAX ;; update delta0) w0 = Ok w1 /\
       update (Q2Qc 100) w1 = Ok w2 /\
       update (Q2Qc 100) w2 = Ok w3 /\
       update (Q2Qc 100) w3 = Ok w4 /\
       update (Q2Qc 100) w4 = Ok w5 /\
       state (self w1) = PLAYING_FORWARD /\ repeatCounter (self w1) = 1 /\
       state (self w2) = PLAYING_BACKWARD /\ repeatCounter (self w2) = 1 /\
       state (self w3) = PLAYING_FORWARD /\ repeatCounter (self w3) = 0 /\
       state (self w4) = PLAYING_BACKWARD /\ repeatCounter (self w4) = 0 /\
       state (self w5) = COMPLETE /\
       entered (trace w5) =
         [COMPLETE; PLAYING_BACKWARD; PLAYING_FORWARD; PLAYING_BACKWARD;
          PLAYING_FORWARD; PENDING_RENDER] ++ entered tr).
Proof.
  split.
  - intros diff setStart w w' H. apply onRepeat_returns in H.
    destruct H as (_ & _ & _ & _ & Hyo & _ & new & Hnew & _ & Hd).
    destruct (Hyo eq_refl) as (Hs & _ & Hc & _).
    split; [ exact Hs | ]. split; [ exact Hc | ]. now exists new.
  - intros MAX ti gd fx fy ext tw tr delta0 w0 Hready Hdelay.
    (* reset *)
    destruct (reset_returns_ready MAX w0 Hready) as (wr & Hreset & Hr).
    destruct (reset_returns MAX w0)
      as (u & Hreset' & Hcfg0 & _ & _ & _ & _ & _ & Hcnt0 & _ & Hel0 & Hst0 &
          Hcd0 & _ & _ & _ & _ & _ & Htr0).
    assert (u = wr) as -> by congruence. clear Hreset'.
    cbv zeta in *. apply num_ltb_ge in Hdelay.
    rewrite Hdelay in Hel0, Hst0, Hcd0, Htr0.
    change (num_eqb (repeat (self w0)) (Q2Qc (-1))) with false in Hcnt0.
    change (repeat (self w0)) with (Q2Qc 1) in Hcnt0.
    assert (Hcfg : forall w, same_config (self w0) (self w) ->
              duration (self w) = Q2Qc 100 /\ yoyo (self w) = true /\
              hold (self w) <= 0 /\ repeatDelay (self w) <= 0).
    { intros w (_ & Hdu & _ & Hyy & Hhd & _ & Hrd & _).
      rewrite Hdu, Hyy, Hhd, Hrd. repeat split; discriminate. }
    (* the render tick *)
    destruct (update_returns_ready delta0 wr Hr) as (w1 & Hup1 & Hr1).
    destruct (update_render _ _ _ Hup1 Hcd0 Hst0)
      as (Hcfg1 & Hcd1 & Hst1 & Hcnt1 & Hel1 & Htr1).
    pose proof (same_config_trans _ _ _ Hcfg0 Hcfg1) as Hc1.
    destruct (Hcfg w1 Hc1) as (Hdu1 & Hyy1 & Hhd1 & Hrd1).
    (* forward pass ends: bounce *)
    destruct (update_returns_ready (Q2Qc 100) w1 Hr1) as (w2 & Hup2 & Hr2).
    destruct (update_pass_end _ _ _ Hup2 Hcd1 (or_introl Hst1))
      as (Hcfg2 & Hcd2 & Hst2 & Hcnt2 & Hel2 & Htr2); try assumption.
    { rewrite Hdu1, Hel1, Hel0. discriminate. }
    rewrite Hst1, Hyy1 in Hst2, Hcnt2. simpl in Hst2, Hcnt2.
    pose proof (same_config_trans _ _ _ Hc1 Hcfg2) as Hc2.
    destruct (Hcfg w2 Hc2) as (Hdu2 & Hyy2 & Hhd2 & Hrd2).
    assert (He2 : elapsed (self w2) = 0).
    { rewrite Hel2 by (rewrite Hst2; discriminate).
      rewrite Hdu1, Hel1, Hel0. apply Qc_is_canon. reflexivity. }
    (* backward pass ends: the repeat *)
    destruct (update_returns_ready (Q2Qc 100) w2 Hr2) as (w3 & Hup3 & Hr3).
    destruct (update_pass_end _ _ _ Hup3 Hcd2 (or_intror Hst2))
      as (Hcfg3 & Hcd3 & Hst3 & Hcnt3 & Hel3 & Htr3); try assumption.
    { rewrite Hdu2, He2. discriminate. }
    rewrite Hst2, Hcnt2, Hcnt1, Hcnt0 in Hst3, Hcnt3. simpl in Hst3, Hcnt3.
    pose proof (same_config_trans _ _ _ Hc2 Hcfg3) as Hc3.
    destruct (Hcfg w3 Hc3) as (Hdu3 & Hyy3 & Hhd3 & Hrd3).
    assert (He3 : elapsed (self w3) = 0).
    { rewrite Hel3 by (rewrite Hst3; discriminate).
      rewrite Hdu2, He2. apply Qc_is_canon. reflexivity. }
    assert (Hn3 : repeatCounter (self w3) = 0).
    { rewrite Hcnt3. apply Qc_is_canon. reflexivity. }
    (* forward pass ends: bounce *)
    destruct (update_returns_ready (Q2Qc 100) w3 Hr3) as (w4 & Hup4 & Hr4).
    destruct (update_pass_end _ _ _ Hup4 Hcd3 (or_introl Hst3))
      as (Hcfg4 & Hcd4 & Hst4 & Hcnt4 & Hel4 & Htr4); try assumption.
    { rewrite Hdu3, He3. discriminate. }
    rewrite Hst3, Hyy3 in Hst4, Hcnt4. simpl in Hst4, Hcnt4.
    pose proof (same_config_trans _ _ _ Hc3 Hcfg4) as Hc4.
    destruct (Hcfg w4 Hc4) as (Hdu4 & Hyy4 & Hhd4 & Hrd4).
    assert (He4 : elapsed (self w4) = 0).
    { rewrite Hel4 by (rewrite Hst4; discriminate).
      rewrite Hdu3, He3. apply Qc_is_canon. reflexivity. }
    (* backward pass ends: no repeat left *)
    destruct (update_returns_ready (Q2Qc 100) w4 Hr4) as (w5 & Hup5 & Hr5).
    destruct (update_pass_end _ _ _ Hup5 Hcd4 (or_intror Hst4))
      as (Hcfg5 & Hcd5 & Hst5 & Hcnt5 & Hel5 & Htr5); try assumption.
    { rewrite Hdu4, He4. discriminate. }
    rewrite Hst4, Hcnt4, Hn3 in Hst5. simpl in Hst5.
    exists w1, w2, w3, w4, w5.
    split. { unfold andThen. rewrite Hreset. exact Hup1. }
    repeat (split; [ assumption || congruence | ]).
    rewrite Htr5, Hst5, Htr4, Hst4, Htr3, Hst3, Htr2, Hst2, Htr1, Htr0.
    reflexivity.
Qed.

Lemma yoyo_keeps_repeatCounter_witness :
  (exists w',
     onRepeat (Q2Qc 30) true true x_world = Ok w' /\
     repeatCounter (self w') = repeatCounter (self x_world)) /\
  exists w1 w2 w3 w4 w5,
    (reset MAX_sample ;; update (Q2Qc 16))
      (mkWorld (initialize 0 (const_resolver 0) (Q2Qc 100) true 0 1 0 false false
                  (extension_for "x" 0 (Q2Qc 100)))
         (fresh_tween (plain_target "x" 0)) []) = Ok w1 /\
    update (Q2Qc 100) w1 = Ok w2 /\
    update (Q2Qc 100) w2 = Ok w3 /\
    update (Q2Qc 100) w3 = Ok w4 /\
    update (Q2Qc 100) w4 = Ok w5 /\
    state (self w5) = COMPLETE.
Proof.
  destruct yoyo_keeps_repeatCounter as (Hbounce & Hscenario).
  split.
  - eexists.
    assert (H : onRepeat (Q2Qc 30) true true x_world = Ok _)
      by (vm_compute; reflexivity).
    split; [ exact H | ]. apply (Hbounce _ _ _ _ H).
  - pose proof (Hscenario MAX_sample 0%nat (const_resolver 0) false false
                  (extension_for "x" 0 (Q2Qc 100))
                  (fresh_tween (plain_target "x" 0)) [] (Q2Qc 16)) as H.
    cbv zeta in H.
    destruct H as (w1 & w2 & w3 & w4 & w5 & H1 & H2 & H3 & H4 & H5 & Hs).
    + reflexivity.
    + discriminate.
    + exists w1, w2, w3, w4, w5. repeat (split; [ assumption | ]). apply Hs.
Defined.

(** * Counting the forward passes *)

Lemma entries_entered q s tr tr' :
  entered tr' = s :: entered tr ->
  entries q tr' =
    if bool_decide (s = q) then S (entries q tr) else entries q tr.
Proof.
  unfold entries. intros ->. simpl. now destruct (bool_decide (s = q)).
Qed.

Lemma num_ltb_0_S k : num_ltb 0 (num_of_nat (S k)) = true.
Proof.
  apply num_ltb_lt. rewrite num_of_nat_S.
  pose proof (num_of_nat_nonneg k). num_lra.
Qed.

Lemma num_of_nat_S_pred k : num_of_nat (S k) - 1 = num_of_nat k.
Proof. rewrite num_of_nat_S. ring. Qed.

Lemma num_of_nat_not_forever N : num_eqb (num_of_nat N) (Q2Qc (-1)) = false.
Proof.
  apply num_eqb_neq. intros E. pose proof (num_of_nat_nonneg N) as H.
  rewrite E in H. now apply H.
Qed.

(** Every tick keeps the invariant. *)
Lemma forward_invariant_update N n0 delta w w' :
  update delta w = Ok w' ->
  forward_invariant N n0 w -> forward_invariant N n0 w'.
Proof.
  intros Hrun (Hyy & Hhd & Hrd & Hinv).
  pose proof (update_returns _ _ _ Hrun) as Hret.
  assert (Hcfg : forall u, same_config (self w) (self u) ->
            yoyo (self u) = false /\ hold (self u) <= 0 /\ repeatDelay (self u) <= 0).
  { intros u (_ & _ & _ & Hy & Hh & _ & Hr & _). rewrite Hy, Hh, Hr. tauto. }
  unfold forward_invariant.
  destruct (state (self w)) eqn:Hst; try contradiction.
  - (* DELAY *)
    destruct Hinv as (Hcd & Hcnt & Hent). rewrite Hcd in Hret. cbv zeta in Hret.
    destruct (num_leb (elapsed (self w) - delta) 0).
    + destruct Hret as ((Hc & Hn & _) & Hs' & Hcd' & _ & Htr').
      rewrite Hs', Htr', Hn. split; [ apply Hcfg, Hc | ].
      split; [ apply Hcfg, Hc | ]. split; [ apply Hcfg, Hc | ]. tauto.
    + destruct Hret as ((Hc & Hn & _) & Hs' & Hcd' & _ & Htr').
      rewrite Hs', Htr', Hn. split; [ apply Hcfg, Hc | ].
      split; [ apply Hcfg, Hc | ]. split; [ apply Hcfg, Hc | ]. tauto.
  - (* PENDING_RENDER *)
    destruct Hinv as (Hcd & Hcnt & Hent). rewrite Hcd in Hret.
    destruct Hret as ((Hc & Hn & _) & Hs' & Hcd' & _ & Htr').
    rewrite Hs', Htr', Hn. split; [ apply Hcfg, Hc | ].
    split; [ apply Hcfg, Hc | ]. split; [ apply Hcfg, Hc | ].
    split; [ exact Hcd' | ]. exists N. split; [ exact Hcnt | ].
    change (entries PLAYING_FORWARD (Enter PLAYING_FORWARD :: trace w))
      with (S (entries PLAYING_FORWARD (trace w))).
    rewrite Hent. lia.
  - (* PLAYING_FORWARD *)
    destruct Hinv as (Hcd & k & Hcnt & Hent).
    destruct (num_leb (duration (self w)) (elapsed (self w) + delta)) eqn:Hend.
    + apply num_leb_le in Hend.
      destruct (update_pass_end _ _ _ Hrun Hcd (or_introl Hst) Hend Hhd Hrd)
        as (Hc & Hcd' & Hs' & Hn & _ & Htr').
      rewrite Hyy in Hs', Hn. rewrite andb_false_r in Hs', Hn.
      split; [ apply Hcfg, Hc | ]. split; [ apply Hcfg, Hc | ].
      split; [ apply Hcfg, Hc | ].
      rewrite (entries_entered PLAYING_FORWARD _ _ _ Htr').
      rewrite Hcnt in Hs', Hn. destruct k as [|k].
      * change (num_ltb 0 (num_of_nat 0)) with false in Hs', Hn.
        rewrite Hs'. simpl. split; [ exact Hcd' | lia ].
      * rewrite num_ltb_0_S in Hs', Hn. rewrite Hs'. simpl.
        split; [ exact Hcd' | ]. exists k.
        rewrite Hn, num_of_nat_S_pred. split; [ reflexivity | lia ].
    + rewrite Hcd in Hret. cbv zeta in Hret. rewrite Hend in Hret.
      destruct Hret as ((Hc & Hn & _) & Hs' & Hcd' & _ & Htr').
      rewrite Hs', Htr', Hn. split; [ apply Hcfg, Hc | ].
      split; [ apply Hcfg, Hc | ]. split; [ apply Hcfg, Hc | ].
      split; [ exact Hcd' | ]. exists k. tauto.
  - (* COMPLETE *)
    destruct Hinv as (Hcd & Hent). rewrite Hcd in Hret. subst w'.
    rewrite Hst. tauto.
Qed.

Lemma forward_invariant_updates N n0 deltas : forall w w',
  updates deltas w = Ok w' ->
  forward_invariant N n0 w -> forward_invariant N n0 w'.
Proof.
  induction deltas as [|delta rest IH]; simpl; intros w w' Hrun Hinv.
  - injection Hrun as <-. exact Hinv.
  - unfold andThen in Hrun.
    destruct (update delta w) as [w1|] eqn:Hup; [ | discriminate ].
    apply (IH w1 w' Hrun). eapply forward_invariant_update; eassumption.
Qed.

(** [reset] establishes it. *)
Lemma forward_invariant_reset MAX N w w' :
  yoyo (self w) = false -> hold (self w) <= 0 -> repeatDelay (self w) <= 0 ->
  repeat (self w) = num_of_nat N ->
  reset MAX w = Ok w' ->
  forward_invariant N (entries PLAYING_FORWARD (trace w)) w'.
Proof.
  intros Hyy Hhd Hrd Hrp Hrun.
  destruct (reset_returns MAX w)
    as (u & Hrun' & Hcfg & _ & _ & _ & _ & _ & Hcnt & _ & _ & Hst & Hcd & _ &
        _ & _ & _ & _ & Htr).
  assert (u = w') as -> by congruence. cbv zeta in *.
  rewrite Hrp, num_of_nat_not_forever in Hcnt.
  destruct Hcfg as (_ & _ & _ & Hy & Hh & _ & Hr & _).
  unfold forward_invariant. rewrite Hy, Hh, Hr, Hst, Hcd, Hcnt, Htr.
  split; [ exact Hyy | ]. split; [ exact Hhd | ]. split; [ exact Hrd | ].
  destruct (num_ltb 0 (resolve getDelay 0 w)); repeat split; reflexivity.
Qed.

(** * Reaching [COMPLETE] *)

Lemma andThen_Ok a b w w' :
  (a ;; b) w = Ok w' -> exists w1, a w = Ok w1 /\ b w1 = Ok w'.
Proof.
  unfold andThen. destruct (a w) as [w1|]; intros H; [ | discriminate H ].
  now exists w1.
Qed.

Lemma updates_app ds1 ds2 w :
  updates (ds1 ++ ds2) w = (updates ds1 ;; updates ds2) w.
Proof.
  revert w. induction ds1 as [|d ds1 IH]; intros w; simpl.
  - reflexivity.
  - unfold andThen in *. destruct (update d w); [ apply IH | reflexivity ].
Qed.

(** Ticks of one duration each complete a unit that plays forward, one
    pass per tick. *)
Lemma forward_passes_complete k : forall w,
  target_ready w = true ->
  state (self w) = PLAYING_FORWARD -> isCountdown (self w) = false ->
  yoyo (self w) = false -> hold (self w) <= 0 -> repeatDelay (self w) <= 0 ->
  repeatCounter (self w) = num_of_nat k ->
  0 <= elapsed (self w) ->
  exists w',
    updates (replicate (S k) (duration (self w))) w = Ok w' /\
    state (self w') = COMPLETE.
Proof.
  induction k as [|k IH]; intros w Hr Hst Hcd Hyy Hhd Hrd Hcnt Hel.
  all: destruct (update_returns_ready (duration (self w)) w Hr) as (w1 & Hup & Hr1).
  all: assert (Hend : duration (self w) <= elapsed (self w) + duration (self w))
         by (clear - Hel; num_lra).
  all: destruct (update_pass_end _ _ _ Hup Hcd (or_introl Hst) Hend Hhd Hrd)
         as (Hc & Hcd' & Hs' & Hn & He' & _).
  all: rewrite Hyy, andb_false_r, Hcnt in Hs', Hn.
  - change (num_ltb 0 (num_of_nat 0)) with false in Hs'.
    exists w1. simpl. unfold andThen. rewrite Hup. split; [ reflexivity | exact Hs' ].
  - rewrite num_ltb_0_S in Hs', Hn. rewrite num_of_nat_S_pred in Hn.
    pose proof Hc as (_ & Hdu & _ & Hy1 & Hh1 & _ & Hr1' & _).
    destruct (IH w1) as (w' & Hrun & Hdone); try assumption.
    + now rewrite Hy1.
    + now rewrite Hh1.
    + now rewrite Hr1'.
    + rewrite He' by (rewrite Hs'; discriminate). clear - Hel. num_lra.
    + exists w'. split; [ | exact Hdone ].
      change (replicate (S (S k)) (duration (self w)))
        with (duration (self w) :: replicate (S k) (duration (self w))).
      simpl updates. unfold andThen. rewrite Hup. rewrite <- Hdu. exact Hrun.
Qed.

(** After [reset], some ticks bring such a unit to [COMPLETE]. *)
Lemma reset_then_complete MAX N w :
  target_ready w = true ->
  yoyo (self w) = false -> hold (self w) <= 0 -> repeatDelay (self w) <= 0 ->
  repeat (self w) = num_of_nat N ->
  exists deltas w',
    (reset MAX ;; updates deltas) w = Ok w' /\ state (self w') = COMPLETE.
Proof.
  intros Hr Hyy Hhd Hrd Hrp.
  destruct (reset_returns_ready MAX w Hr) as (wr & Hreset & Hrr).
  destruct (reset_returns MAX w)
    as (u & Hreset' & Hcfg & _ & _ & _ & _ & _ & Hcnt & _ & Hel & Hst & Hcd & _).
  assert (u = wr) as -> by congruence. clear Hreset'. cbv zeta in *.
  rewrite Hrp, num_of_nat_not_forever in Hcnt.
  assert (Hkeep : forall u, same_config (self w) (self u) ->
            yoyo (self u) = false /\ hold (self u) <= 0 /\ repeatDelay (self u) <= 0).
  { intros u (_ & _ & _ & Hy & Hh & _ & Hr' & _). rewrite Hy, Hh, Hr'. tauto. }
  (* the unit reaches PENDING_RENDER, with a non-negative [elapsed] *)
  assert (Hpending : exists ds wp,
            updates ds wr = Ok wp /\ target_ready wp = true /\
            same_config (self w) (self wp) /\
            state (self wp) = PENDING_RENDER /\ isCountdown (self wp) = false /\
            repeatCounter (self wp) = num_of_nat N /\ 0 <= elapsed (self wp)).
  { destruct (num_ltb 0 (resolve getDelay 0 w)) eqn:Hdl.
    - destruct (update_returns_ready (elapsed (self wr)) wr Hrr) as (wp & Hup & Hrp').
      pose proof (update_returns _ _ _ Hup) as Hret.
      rewrite Hcd, Hst in Hret. cbv zeta in Hret.
      assert (Hz : num_leb (elapsed (self wr) - elapsed (self wr)) 0 = true).
      { apply num_leb_le. num_lra. }
      rewrite Hz in Hret. destruct Hret as ((Hc & Hn & _) & Hs' & Hcd' & He' & _).
      exists [elapsed (self wr)], wp. simpl. unfold andThen. rewrite Hup.
      split; [ reflexivity | ]. split; [ exact Hrp' | ].
      split; [ eapply same_config_trans; eassumption | ].
      split; [ exact Hs' | ]. split; [ exact Hcd' | ].
      split; [ congruence | ]. rewrite He'. num_lra.
    - exists [], wr. simpl. split; [ reflexivity | ]. split; [ exact Hrr | ].
      split; [ exact Hcfg | ]. split; [ exact Hst | ]. split; [ exact Hcd | ].
      split; [ exact Hcnt | ]. rewrite Hel. apply Qcle_refl. }
  destruct Hpending as (ds & wp & Hrun & Hrp' & Hc & Hs & Hcdp & Hn & He).
  (* the render tick *)
  destruct (update_returns_ready 0 wp Hrp') as (wf & Hup & Hrf).
  destruct (update_render _ _ _ Hup Hcdp Hs) as (Hc' & Hcd' & Hs' & Hn' & He' & _).
  pose proof (same_config_trans _ _ _ Hc Hc') as Hcf.
  destruct (Hkeep wf Hcf) as (Hy & Hh & Hr').
  destruct (forward_passes_complete N wf) as (w' & Hloop & Hdone); try assumption.
  - congruence.
  - now rewrite He'.
  - exists (ds ++ [0] ++ replicate (S N) (duration (self wf))), w'.
    split; [ | exact Hdone ].
    unfold andThen. rewrite Hreset.
    rewrite updates_app. unfold andThen. rewrite Hrun.
    rewrite updates_app. unfold andThen. simpl updates at 1. unfold andThen, skip.
    rewrite Hup. exact Hloop.
Qed.

Lemma reset_updates_invariant MAX N w deltas w' :
  yoyo (self w) = false -> hold (self w) <= 0 -> repeatDelay (self w) <= 0 ->
  repeat (self w) = num_of_nat N ->
  (reset MAX ;; updates deltas) w = Ok w' ->
  forward_invariant N (entries PLAYING_FORWARD (trace w)) w'.
Proof.
  intros Hyy Hhd Hrd Hrp Hrun.
  apply andThen_Ok in Hrun. destruct Hrun as (wr & Hreset & Hrun).
  apply (forward_invariant_updates N _ deltas wr w' Hrun).
  apply (forward_invariant_reset MAX N w wr); assumption.
Qed.

Lemma forward_invariant_entries N n0 w :
  forward_invariant N n0 w ->
  (entries PLAYING_FORWARD (trace w) <= n0 + N + 1)%nat /\
  (state (self w) = COMPLETE ->
     entries PLAYING_FORWARD (trace w) = (n0 + N + 1)%nat).
Proof.
  intros (_ & _ & _ & H). destruct (state (self w)); try contradiction.
  - destruct H as (_ & _ & ->). split; [ lia | discriminate ].
  - destruct H as (_ & _ & ->). split; [ lia | discriminate ].
  - destruct H as (_ & k & _ & H). split; [ lia | discriminate ].
  - destruct H as (_ & ->). split; [ lia | reflexivity ].
Qed.

(** C5. A unit with [repeat = N], no yoyo, no hold and no repeat delay
    enters [PLAYING_FORWARD] exactly [N + 1] times between its [reset] and
    [COMPLETE]: whatever the ticks, it never enters more often, it has
    entered [N + 1] times when it is [COMPLETE], and ticks that bring it
    there exist. *)
Theorem repeat_enters_forward N MAX ti gd dur fx fy ext tw tr :
  let w0 :=
    mkWorld (initialize ti gd dur false 0 (num_of_nat N) 0 fx fy ext) tw tr in
  let before := entries PLAYING_FORWARD tr in
  (forall deltas w',
     (reset MAX ;; updates deltas) w0 = Ok w' ->
     (entries PLAYING_FORWARD (trace w') <= before + N + 1)%nat /\
     (state (self w') = COMPLETE ->
        entries PLAYING_FORWARD (trace w') = (before + N + 1)%nat)) /\
  (target_ready w0 = true ->
   exists deltas w',
     (reset MAX ;; updates deltas) w0 = Ok w' /\
     state (self w') = COMPLETE /\
     entries PLAYING_FORWARD (trace w') = (before + N + 1)%nat).
Proof.
  intros w0 before.
  assert (Hyy : yoyo (self w0) = false) by reflexivity.
  assert (Hhd : hold (self w0) <= 0) by discriminate.
  assert (Hrd : repeatDelay (self w0) <= 0) by discriminate.
  assert (Hrp : repeat (self w0) = num_of_nat N) by reflexivity.
  assert (Htr : entries PLAYING_FORWARD (trace w0) = before) by reflexivity.
  clearbody w0 before.
  split.
  - intros deltas w' Hrun. rewrite <- Htr.
    apply forward_invariant_entries.
    exact (reset_updates_invariant MAX N w0 deltas w' Hyy Hhd Hrd Hrp Hrun).
  - intros Hready.
    destruct (reset_then_complete MAX N w0 Hready Hyy Hhd Hrd Hrp)
      as (deltas & w' & Hrun & Hdone).
    exists deltas, w'. split; [ exact Hrun | ]. split; [ exact Hdone | ].
    rewrite <- Htr.
    apply (forward_invariant_entries N _ w'); [ | exact Hdone ].
    exact (reset_updates_invariant MAX N w0 deltas w' Hyy Hhd Hrd Hrp Hrun).
Qed.

Lemma repeat_enters_forward_witness :
  exists deltas w',
    (reset MAX_sample ;; updates deltas)
      (mkWorld (initialize 0 (const_resolver (Q2Qc 20)) (Q2Qc 100) false 0
                  (num_of_nat 2) 0 false false (extension_for "x" 0 (Q2Qc 100)))
         (fresh_tween (plain_target "x" 0)) []) = Ok w' /\
    state (self w') = COMPLETE /\
    entries PLAYING_FORWARD (trace w') = 3%nat.
Proof.
  pose proof (repeat_enters_forward 2 MAX_sample 0%nat (const_resolver (Q2Qc 20))
                (Q2Qc 100) false false (extension_for "x" 0 (Q2Qc 100))
                (fresh_tween (plain_target "x" 0)) []) as H.
  cbv zeta in H. destruct H as (_ & H).
  destruct (H eq_refl) as (deltas & w' & Hrun & Hdone & Hent).
  exists deltas, w'. split; [ exact Hrun | ]. split; [ exact Hdone | exact Hent ].
Defined.

(** * Further properties of the class *)

(** ** The countdown flag *)

Lemma andThen_Ok_iff a b w w' :
  (a ;; b) w = Ok w' <-> exists w1, a w = Ok w1 /\ b w1 = Ok w'.
Proof.
  split; [ apply andThen_Ok | ].
  intros (w1 & Ha & Hb). unfold andThen. now rewrite Ha.
Qed.

Lemma perform_countdown_flag MAX c w w' :
  perform MAX c w = Ok w' ->
  isCountdown (self w) = countdown_state (state (self w)) ->
  isCountdown (self w') = countdown_state (state (self w')).
Proof.
  assert (Hrep : forall diff ss iy u,
            onRepeat diff ss iy u = Ok w' ->
            isCountdown (self w') = countdown_state (state (self w'))).
  { intros diff ss iy u H. apply onRepeat_returns in H.
    destruct H as (_ & _ & _ & _ & Hy & Hn & _). destruct iy.
    - destruct (Hy eq_refl) as (-> & -> & _). reflexivity.
    - destruct (Hn eq_refl) as (_ & Hbr).
      destruct (num_ltb 0 (repeatDelay (self u)));
        destruct Hbr as (-> & -> & _); reflexivity. }
  destruct c; simpl; intros H Hinv.
  - destruct (reset_returns MAX w)
      as (u & Hr & _ & _ & _ & _ & _ & _ & _ & _ & _ & Hs & Hc & _).
    assert (u = w') as -> by congruence. cbv zeta in *. rewrite Hs, Hc.
    now destruct (num_ltb 0 (resolve getDelay 0 w)).
  - exact (Hrep _ _ _ _ H).
  - apply setStateFromEnd_returns in H.
    destruct (yoyo (self w)); [ exact (Hrep _ _ _ _ H) | ].
    destruct (num_ltb 0 (repeatCounter (self w))); [ exact (Hrep _ _ _ _ H) | ].
    destruct H as (_ & -> & -> & _). reflexivity.
  - apply setStateFromStart_returns in H.
    destruct (num_ltb 0 (repeatCounter (self w))); [ exact (Hrep _ _ _ _ H) | ].
    destruct H as (_ & -> & -> & _). reflexivity.
  - apply setTargetValue_returns in H. destruct H as (-> & _). exact Hinv.
  - destruct (setState_returns s w) as (u & Hs & _ & Hst & _ & Hcd & _).
    assert (u = w') as -> by congruence. rewrite Hst, Hcd. now destruct s.
Qed.

(** X1. Whatever methods are called on a unit after its construction, and
    in whatever order, [isCountdown] is true exactly while the unit is in
    [DELAY], [HOLD_DELAY] or [REPEAT_DELAY]. *)
Theorem countdown_flag_invariant MAX ti gd dur yy hd rp rd fx fy ext tw tr cs w' :
  perform_all MAX cs
    (mkWorld (initialize ti gd dur yy hd rp rd fx fy ext) tw tr) = Ok w' ->
  isCountdown (self w') = countdown_state (state (self w')).
Proof.
  assert (Hinit : isCountdown (self (mkWorld (initialize ti gd dur yy hd rp rd fx fy ext) tw tr))
                  = countdown_state (state (self (mkWorld (initialize ti gd dur yy hd rp rd fx fy ext) tw tr))))
    by reflexivity.
  revert Hinit. generalize (mkWorld (initialize ti gd dur yy hd rp rd fx fy ext) tw tr).
  induction cs as [|c cs IH]; simpl; intros w Hinv Hrun.
  - injection Hrun as <-. exact Hinv.
  - apply andThen_Ok in Hrun. destruct Hrun as (w1 & Hc & Hrest).
    apply (IH w1); [ | exact Hrest ].
    eapply perform_countdown_flag; eassumption.
Qed.

Lemma countdown_flag_invariant_witness :
  exists w',
    perform_all MAX_sample
      [call_reset; call_setStateFromEnd (Q2Qc 10); call_setState HOLD_DELAY;
       call_setStateFromStart (Q2Qc 5)]
      (mkWorld (initialize 0 (const_resolver (Q2Qc 20)) (Q2Qc 100) false 0
                  (Q2Qc 2) (Q2Qc 50) false false (extension_for "x" 0 (Q2Qc 100)))
         (fresh_tween (plain_target "x" 0)) []) = Ok w' /\
    isCountdown (self w') = countdown_state (state (self w')) /\
    state (self w') = REPEAT_DELAY.
Proof.
  eexists.
  assert (H : perform_all MAX_sample
      [call_reset; call_setStateFromEnd (Q2Qc 10); call_setState HOLD_DELAY;
       call_setStateFromStart (Q2Qc 5)]
      (mkWorld (initialize 0 (const_resolver (Q2Qc 20)) (Q2Qc 100) false 0
                  (Q2Qc 2) (Q2Qc 50) false false (extension_for "x" 0 (Q2Qc 100)))
         (fresh_tween (plain_target "x" 0)) []) = Ok _)
    by (vm_compute; reflexivity).
  split; [ exact H | ]. split; [ | reflexivity ].
  exact (countdown_flag_invariant _ _ _ _ _ _ _ _ _ _ _ _ _ _ _ H).
Defined.

(** ** The repeat counter *)

Lemma perform_counter_natural MAX N c w w' :
  policy_call c = true ->
  repeat (self w) = num_of_nat N ->
  perform MAX c w = Ok w' ->
  (exists k, (k <= N)%nat /\ repeatCounter (self w) = num_of_nat k) ->
  exists k, (k <= N)%nat /\ repeatCounter (self w') = num_of_nat k.
Proof.
  intros Hpol Hrp H (k & Hk & Hcnt).
  assert (Hrep : forall diff ss,
            num_ltb 0 (repeatCounter (self w)) = true ->
            onRepeat diff ss false w = Ok w' ->
            exists k, (k <= N)%nat /\ repeatCounter (self w') = num_of_nat k).
  { intros diff ss Hpos Hr. apply onRepeat_returns in Hr.
    destruct Hr as (_ & _ & _ & _ & _ & Hn & _).
    destruct (Hn eq_refl) as (Hc & _). rewrite Hcnt in Hpos, Hc.
    destruct k as [|k]; [ discriminate Hpos | ].
    exists k. split; [ lia | ]. rewrite Hc. apply num_of_nat_S_pred. }
  revert H. destruct c; try discriminate Hpol; simpl; intros H.
  - destruct (reset_returns MAX w)
      as (u & Hr & _ & _ & _ & _ & _ & _ & Hc & _).
    assert (u = w') as -> by congruence. cbv zeta in Hc.
    rewrite Hrp, num_of_nat_not_forever in Hc. exists N. split; [ lia | exact Hc ].
  - apply setStateFromEnd_returns in H.
    destruct (yoyo (self w)).
    + apply onRepeat_returns in H. destruct H as (_ & _ & _ & _ & Hy & _).
      destruct (Hy eq_refl) as (_ & _ & Hc & _). exists k. rewrite Hc. split; assumption.
    + destruct (num_ltb 0 (repeatCounter (self w))) eqn:Hpos.
      * exact (Hrep _ _ eq_refl H).
      * destruct H as ((_ & Hc & _) & _). exists k. rewrite Hc. split; assumption.
  - apply setStateFromStart_returns in H.
    destruct (num_ltb 0 (repeatCounter (self w))) eqn:Hpos.
    + exact (Hrep _ _ eq_refl H).
    + destruct H as ((_ & Hc & _) & _). exists k. rewrite Hc. split; assumption.
  - apply setTargetValue_returns in H. destruct H as (-> & _). exists k. split; assumption.
  - destruct (setState_returns s w) as (u & Hs & (_ & Hc & _) & _).
    assert (u = w') as -> by congruence. exists k. rewrite Hc. split; assumption.
Qed.

(** X2. For a unit built with a whole number [N] of repeats, whatever
    sequence of [reset], end-policy, state-setter and [setTargetValue]
    calls is made, [repeatCounter] stays a whole number between 0 and [N]:
    the policies never drive it below zero. *)
Theorem repeatCounter_natural MAX N ti gd dur yy hd rd fx fy ext tw tr cs w' :
  forallb policy_call cs = true ->
  perform_all MAX cs
    (mkWorld (initialize ti gd dur yy hd (num_of_nat N) rd fx fy ext) tw tr)
    = Ok w' ->
  exists k, (k <= N)%nat /\ repeatCounter (self w') = num_of_nat k.
Proof.
  set (w0 := mkWorld (initialize ti gd dur yy hd (num_of_nat N) rd fx fy ext) tw tr).
  assert (Hrp : repeat (self w0) = num_of_nat N) by reflexivity.
  assert (Hinv : exists k, (k <= N)%nat /\ repeatCounter (self w0) = num_of_nat k).
  { exists 0%nat. split; [ lia | reflexivity ]. }
  clearbody w0. revert w0 Hrp Hinv.
  induction cs as [|c cs IH]; simpl; intros w Hrp Hinv Hpol Hrun.
  - injection Hrun as <-. exact Hinv.
  - apply andb_true_iff in Hpol. destruct Hpol as (Hc & Hcs).
    apply andThen_Ok in Hrun. destruct Hrun as (w1 & H1 & Hrest).
    apply (IH w1); try assumption.
    + apply perform_same_config in H1. destruct H1 as (_ & _ & _ & _ & _ & E & _).
      rewrite E. exact Hrp.
    + eapply perform_counter_natural; eassumption.
Qed.

Lemma repeatCounter_natural_witness :
  exists w' k,
    perform_all MAX_sample
      [call_reset; call_setStateFromEnd 0; call_setStateFromEnd 0;
       call_setStateFromEnd 0; call_setStateFromStart 0]
      (mkWorld (initialize 0 (const_resolver 0) (Q2Qc 100) false 0
                  (num_of_nat 2) 0 false false (extension_for "x" 0 (Q2Qc 100)))
         (fresh_tween (plain_target "x" 0)) []) = Ok w' /\
    (k <= 2)%nat /\ repeatCounter (self w') = num_of_nat k.
Proof.
  eexists.
  assert (H : perform_all MAX_sample
      [call_reset; call_setStateFromEnd 0; call_setStateFromEnd 0;
       call_setStateFromEnd 0; call_setStateFromStart 0]
      (mkWorld (initialize 0 (const_resolver 0) (Q2Qc 100) false 0
                  (num_of_nat 2) 0 false false (extension_for "x" 0 (Q2Qc 100)))
         (fresh_tween (plain_target "x" 0)) []) = Ok _)
    by (vm_compute; reflexivity).
  pose proof (fun Hp => repeatCounter_natural MAX_sample 2 _ _ _ _ _ _ _ _ _ _ _ _ _ Hp H)
    as Hnat.
  destruct (Hnat eq_refl) as (k & Hk & Hc).
  exists k. split; [ exact H | ]. split; [ exact Hk | exact Hc ].
Defined.

(** ** Counting repeats at the end of forward passes *)

Lemma replicate_cons_app {A} n (x : A) l :
  replicate n x ++ x :: l = x :: replicate n x ++ l.
Proof. induction n as [|n IH]; simpl; [ reflexivity | now rewrite IH ]. Qed.

Lemma setStateFromEnd_repeats MAX diffs : forall w,
  target_ready w = true ->
  yoyo (self w) = false -> repeatDelay (self w) <= 0 ->
  repeatCounter (self w) = num_of_nat (length diffs) ->
  exists w',
    perform_all MAX (map call_setStateFromEnd diffs) w = Ok w' /\
    target_ready w' = true /\ same_config (self w) (self w') /\
    repeatCounter (self w') = 0 /\
    (diffs <> [] -> state (self w') = PLAYING_FORWARD) /\
    entered (trace w') =
      replicate (length diffs) PLAYING_FORWARD ++ entered (trace w).
Proof.
  induction diffs as [|diff diffs IH]; intros w Hr Hyy Hrd Hcnt.
  - exists w. simpl. split; [ reflexivity | ]. split; [ exact Hr | ].
    split; [ apply same_config_refl | ]. split; [ exact Hcnt | ].
    split; [ intros E; destruct E; reflexivity | reflexivity ].
  - destruct (proj1 (returns_ex _ _ _) (keeps_ready_setStateFromEnd diff w Hr))
      as (w1 & H1 & Hr1).
    pose proof (setStateFromEnd_returns _ _ _ H1) as Hret.
    simpl length in Hcnt. rewrite Hyy, Hcnt, num_ltb_0_S in Hret.
    apply onRepeat_returns in Hret.
    destruct Hret as (Hcfg & _ & _ & _ & _ & Hn & new & Hnew & Hent & _).
    destruct (Hn eq_refl) as (Hc1 & Hbr).
    apply num_ltb_ge in Hrd. rewrite Hrd in Hbr. destruct Hbr as (Hs1 & _).
    rewrite Hcnt, num_of_nat_S_pred in Hc1.
    pose proof Hcfg as (_ & _ & _ & Hy1 & _ & _ & Hrd1 & _).
    destruct (IH w1) as (w' & Hrun & Hr' & Hcfg' & Hc' & Hs' & Htr'); try assumption.
    + rewrite Hy1. exact Hyy.
    + rewrite Hrd1. apply num_ltb_ge. exact Hrd.
    + exists w'. split.
      { simpl. apply andThen_Ok_iff. exists w1. split; assumption. }
      split; [ exact Hr' | ].
      split; [ eapply same_config_trans; eassumption | ].
      split; [ exact Hc' | ]. split.
      * intros _. destruct diffs as [|d ds]; [ | apply Hs'; discriminate ].
        simpl in Hrun. injection Hrun as <-. exact Hs1.
      * rewrite Htr', Hnew, entered_app, Hent, Hs1. simpl.
        apply replicate_cons_app.
Qed.

(** X3. A unit without yoyo and without repeat delay that has [N] repeats
    left goes through exactly [N] further forward passes: [N] successive
    calls of [setStateFromEnd] each put it back in [PLAYING_FORWARD],
    using up one repeat, and the next call completes it. *)
Theorem setStateFromEnd_counts_repeats MAX diffs diff w :
  target_ready w = true ->
  yoyo (self w) = false -> repeatDelay (self w) <= 0 ->
  repeatCounter (self w) = num_of_nat (length diffs) ->
  exists w1 w2,
    perform_all MAX (map call_setStateFromEnd diffs) w = Ok w1 /\
    repeatCounter (self w1) = 0 /\
    entered (trace w1) =
      replicate (length diffs) PLAYING_FORWARD ++ entered (trace w) /\
    setStateFromEnd diff w1 = Ok w2 /\
    state (self w2) = COMPLETE /\
    entered (trace w2) = COMPLETE :: entered (trace w1).
Proof.
  intros Hr Hyy Hrd Hcnt.
  destruct (setStateFromEnd_repeats MAX diffs w Hr Hyy Hrd Hcnt)
    as (w1 & Hrun & Hr1 & Hcfg & Hc1 & _ & Htr1).
  destruct (proj1 (returns_ex _ _ _) (keeps_ready_setStateFromEnd diff w1 Hr1))
    as (w2 & H2 & _).
  exists w1, w2. split; [ exact Hrun | ]. split; [ exact Hc1 | ].
  split; [ exact Htr1 | ]. split; [ exact H2 | ].
  apply setStateFromEnd_returns in H2.
  destruct Hcfg as (_ & _ & _ & Hy1 & _).
  rewrite Hy1, Hyy, Hc1 in H2.
  change (num_ltb 0 0) with false in H2.
  destruct H2 as (_ & Hs & _ & _ & _ & Htr). split; [ exact Hs | ].
  rewrite Htr. reflexivity.
Qed.


Lemma setStateFromEnd_counts_repeats_witness :
  exists w1 w2,
    perform_all MAX_sample (map call_setStateFromEnd [Q2Qc 3; Q2Qc 4])
      (on_self (set_repeatCounter (num_of_nat 2))
         (mkWorld (initialize 0 (const_resolver 0) (Q2Qc 100) false 0
                     (num_of_nat 2) 0 false false (extension_for "x" 0 (Q2Qc 100)))
            (fresh_tween (plain_target "x" 0)) [])) = Ok w1 /\
    setStateFromEnd (Q2Qc 5) w1 = Ok w2 /\ state (self w2) = COMPLETE.
Proof.
  pose proof (setStateFromEnd_counts_repeats MAX_sample [Q2Qc 3; Q2Qc 4] (Q2Qc 5)
      (on_self (set_repeatCounter (num_of_nat 2))
         (mkWorld (initialize 0 (const_resolver 0) (Q2Qc 100) false 0
                     (num_of_nat 2) 0 false false (extension_for "x" 0 (Q2Qc 100)))
            (fresh_tween (plain_target "x" 0)) []))) as H.
  destruct H as (w1 & w2 & H1 & _ & _ & H2 & Hs & _).
  - reflexivity.
  - reflexivity.
  - discriminate.
  - reflexivity.
  - exists w1, w2. split; [ exact H1 | ]. split; [ exact H2 | exact Hs ].
Defined.

(** ** What [reset] computes and what it leaves alone *)

Lemma Qc_mult_nonneg (a b : Num) : 0 <= a -> 0 <= b -> 0 <= a * b.
Proof.
  intros Ha Hb. num_to_Q. apply Qmult_le_0_compat; assumption.
Qed.

(** X4. After [reset], a unit built by the constructor with a non-negative
    hold, a non-negative repeat delay and a repeat count that is
    non-negative, or -1 with a non-negative [MAX], has
    [totalDuration >= delay + duration], and at least twice the duration
    on top of the delay when it yoyos. *)
Theorem reset_totalDuration_lower_bound MAX ti gd dur yy hd rp rd fx fy ext tw tr :
  0 <= hd -> 0 <= rd ->
  0 <= rp \/ (rp = Q2Qc (-1) /\ 0 <= MAX) ->
  exists w',
    reset MAX (mkWorld (initialize ti gd dur yy hd rp rd fx fy ext) tw tr) = Ok w' /\
    delay (self w') + duration (self w') <= totalDuration (self w') /\
    (yy = true ->
       delay (self w') + duration (self w') + duration (self w')
       <= totalDuration (self w')).
Proof.
  intros Hhd Hrd Hrp.
  set (w0 := mkWorld (initialize ti gd dur yy hd rp rd fx fy ext) tw tr).
  pose proof (initialize_duration_pos ti gd dur yy hd rp rd fx fy ext) as Hpos.
  destruct (reset_returns MAX w0)
    as (w' & Hrun & (_ & Hdu & _) & _ & _ & _ & _ & Hdl & _ & Htot & _).
  cbv zeta in *. exists w'. split; [ exact Hrun | ].
  rewrite Hdl, Htot, Hdu. clear Hrun Hdl Htot Hdu.
  change (duration (self w0)) with (duration (initialize ti gd dur yy hd rp rd fx fy ext)) in *.
  change (hold (self w0)) with hd. change (repeatDelay (self w0)) with rd.
  change (repeat (self w0)) with rp. change (yoyo (self w0)) with yy.
  set (D := duration (initialize ti gd dur yy hd rp rd fx fy ext)) in *.
  set (dl := resolve getDelay 0 w0). clearbody D dl. clear w0.
  assert (Ht2 : 0 <= (if yy then D + hd + D else D + hd) + rd).
  { destruct yy; clear - Hpos Hhd Hrd; num_lra. }
  assert (Hextra : exists x, 0 <= x /\
            (if num_eqb rp (Q2Qc (-1))
             then dl + (if yy then D + hd + D else D + hd)
                  + ((if yy then D + hd + D else D + hd) + rd) * MAX
             else if num_ltb 0 rp
                  then dl + (if yy then D + hd + D else D + hd)
                       + ((if yy then D + hd + D else D + hd) + rd) * rp
                  else dl + (if yy then D + hd + D else D + hd))
            = dl + (if yy then D + hd + D else D + hd) + x).
  { destruct (num_eqb rp (Q2Qc (-1))) eqn:Hf.
    - apply num_eqb_eq in Hf. destruct Hrp as [Hrp | (_ & Hmax)].
      + rewrite Hf in Hrp. exfalso. apply Hrp. reflexivity.
      + eexists. split; [ | reflexivity ]. now apply Qc_mult_nonneg.
    - destruct (num_ltb 0 rp) eqn:Hlt.
      + apply num_ltb_lt in Hlt. eexists. split; [ | reflexivity ].
        apply Qc_mult_nonneg; [ exact Ht2 | now apply Qclt_le_weak ].
      + exists 0. split; [ apply Qcle_refl | ring ]. }
  destruct Hextra as (x & Hx & ->).
  split.
  - destruct yy; clear - Hpos Hhd Hx; num_lra.
  - intros ->. clear - Hpos Hhd Hx. num_lra.
Qed.

Lemma reset_totalDuration_lower_bound_witness :
  exists w',
    reset MAX_sample
      (mkWorld (initialize 0 (const_resolver (Q2Qc 20)) (Q2Qc 0) true (Q2Qc 5)
                  (Q2Qc (-1)) (Q2Qc 7) false false (extension_for "x" 0 (Q2Qc 100)))
         (fresh_tween (plain_target "x" 0)) []) = Ok w' /\
    delay (self w') + duration (self w') <= totalDuration (self w').
Proof.
  pose proof (reset_totalDuration_lower_bound MAX_sample 0%nat
                (const_resolver (Q2Qc 20)) (Q2Qc 0) true (Q2Qc 5) (Q2Qc (-1))
                (Q2Qc 7) false false (extension_for "x" 0 (Q2Qc 100))
                (fresh_tween (plain_target "x" 0)) []) as H.
  destruct H as (w' & Hrun & Hle & _).
  - discriminate.
  - discriminate.
  - right. split; [ reflexivity | discriminate ].
  - exists w'. split; [ exact Hrun | exact Hle ].
Defined.

(** X5. [reset] never raises, not even when the unit's target is missing;
    it leaves the targets, [start], [end] and [current] as they are, zeroes
    [progress], and enters [PENDING_RENDER] and then, exactly when the
    resolved delay is positive, [DELAY] with [elapsed] set to that delay
    (otherwise [elapsed] is 0). *)
Theorem reset_frame MAX w :
  exists w',
    reset MAX w = Ok w' /\
    Tween.targets (tween w') = Tween.targets (tween w) /\
    Tween.totalTargets (tween w') = Tween.totalTargets (tween w) /\
    start (self w') = start (self w) /\
    end_ (self w') = end_ (self w) /\
    current (self w') = current (self w) /\
    same_config (self w) (self w') /\
    progress (self w') = 0 /\
    (0 < delay (self w') ->
       state (self w') = DELAY /\ elapsed (self w') = delay (self w') /\
       trace w' = Enter DELAY :: Enter PENDING_RENDER :: trace w) /\
    (delay (self w') <= 0 ->
       state (self w') = PENDING_RENDER /\ elapsed (self w') = 0 /\
       trace w' = Enter PENDING_RENDER :: trace w).
Proof.
  destruct (reset_returns MAX w)
    as (w' & Hrun & Hcfg & Hsv & Hev & Hcv & Hpg & Hdl & _ & _ & Hel & Hst & _ &
        Htg & Htt & _ & _ & _ & Htr).
  cbv zeta in *. exists w'. rewrite <- Hdl in Hel, Hst, Htr.
  repeat (split; [ assumption | ]). split.
  - intros Hpos. apply num_ltb_lt in Hpos. rewrite Hpos in Hel, Hst, Htr.
    repeat split; assumption.
  - intros Hneg. apply num_ltb_ge in Hneg. rewrite Hneg in Hel, Hst, Htr.
    repeat split; assumption.
Qed.

Lemma reset_frame_witness :
  exists w',
    reset MAX_sample
      (mkWorld (initialize 3 (const_resolver (Q2Qc 20)) (Q2Qc 100) false 0 0 0
                  true true (extension_for "x" 0 (Q2Qc 100)))
         (fresh_tween (plain_target "x" 0)) []) = Ok w' /\
    state (self w') = DELAY /\ elapsed (self w') = delay (self w').
Proof.
  destruct (reset_frame MAX_sample
      (mkWorld (initialize 3 (const_resolver (Q2Qc 20)) (Q2Qc 100) false 0 0 0
                  true true (extension_for "x" 0 (Q2Qc 100)))
         (fresh_tween (plain_target "x" 0)) []))
    as (w' & Hrun & _ & _ & _ & _ & _ & _ & _ & Hpos & _).
  exists w'. split; [ exact Hrun | ].
  destruct (reset_returns MAX_sample
      (mkWorld (initialize 3 (const_resolver (Q2Qc 20)) (Q2Qc 100) false 0 0 0
                  true true (extension_for "x" 0 (Q2Qc 100)))
         (fresh_tween (plain_target "x" 0)) []))
    as (u & Hrun' & _ & _ & _ & _ & _ & Hdl & _).
  assert (u = w') as -> by congruence.
  destruct Hpos as (Hs & He & _); [ rewrite Hdl; reflexivity | ].
  split; assumption.
Defined.

(** ** Several units under one tween *)

Lemma reset_summary_bounds MAX w :
  exists w',
    reset MAX w = Ok w' /\
    Tween.targets (tween w') = Tween.targets (tween w) /\
    Tween.duration (tween w) <= Tween.duration (tween w') /\
    totalDuration (self w') <= Tween.duration (tween w') /\
    (Tween.duration (tween w') = Tween.duration (tween w) \/
     Tween.duration (tween w') = totalDuration (self w')) /\
    Tween.startDelay (tween w') <= Tween.startDelay (tween w) /\
    Tween.startDelay (tween w') <= delay (self w') /\
    (Tween.startDelay (tween w') = Tween.startDelay (tween w) \/
     Tween.startDelay (tween w') = delay (self w')) /\
    Tween.isInfinite (tween w') =
      Tween.isInfinite (tween w) || num_eqb (repeat (self w)) (Q2Qc (-1)).
Proof.
  destruct (reset_returns MAX w)
    as (w' & Hrun & _ & _ & _ & _ & _ & Hdl & _ & Htot & _ & _ & _ & Htg & _ &
        Hdur & Hsd & Hinf & _).
  cbv zeta in *. exists w'. split; [ exact Hrun | ]. split; [ exact Htg | ].
  rewrite <- Htot in Hdur. rewrite <- Hdl in Hsd. rewrite Hdur, Hsd, Hinf.
  clear Hrun Htot Hdl Hdur Hsd Hinf.
  destruct (num_ltb (Tween.duration (tween w)) (totalDuration (self w'))) eqn:Ed;
  destruct (num_ltb (delay (self w')) (Tween.startDelay (tween w))) eqn:Es.
  all: try apply num_ltb_lt in Ed; try apply num_ltb_ge in Ed.
  all: try apply num_ltb_lt in Es; try apply num_ltb_ge in Es.
  all: repeat split; auto using Qcle_refl, Qclt_le_weak.
  all: destruct (num_eqb (repeat (self w)) (Q2Qc (-1)));
       destruct (Tween.isInfinite (tween w)); reflexivity.
Qed.

(** X6. Resetting the units of one tween one after the other leaves in the
    tween's [duration] the largest of its previous value and the units'
    [totalDuration]s, in its [startDelay] the smallest of its previous value
    and the units' [delay]s, and makes it infinite as soon as one unit
    repeats forever; the targets are not touched and no reset raises. *)
Theorem reset_units_summary MAX units : forall tw,
  exists ds tw',
    reset_units MAX units tw = Ok (ds, tw') /\
    length ds = length units /\
    Tween.targets tw' = Tween.targets tw /\
    Tween.duration tw <= Tween.duration tw' /\
    Tween.startDelay tw' <= Tween.startDelay tw /\
    Forall (fun d => totalDuration d <= Tween.duration tw' /\
                     Tween.startDelay tw' <= delay d) ds /\
    (Tween.duration tw' = Tween.duration tw \/
     Exists (fun d => Tween.duration tw' = totalDuration d) ds) /\
    (Tween.startDelay tw' = Tween.startDelay tw \/
     Exists (fun d => Tween.startDelay tw' = delay d) ds) /\
    Tween.isInfinite tw' =
      Tween.isInfinite tw ||
      existsb (fun d => num_eqb (repeat d) (Q2Qc (-1))) units.
Proof.
  induction units as [|d rest IH]; intros tw.
  - exists [], tw. simpl. rewrite orb_false_r.
    repeat split; auto using Qcle_refl.
  - destruct (reset_summary_bounds MAX (mkWorld d tw []))
      as (w & Hrun & Htg & Hd1 & Hd2 & Hd3 & Hs1 & Hs2 & Hs3 & Hinf).
    destruct (IH (tween w))
      as (ds & tw' & Hrest & Hlen & Htg' & Hd1' & Hs1' & Hall & Hd3' & Hs3' & Hinf').
    simpl in Htg, Hd1, Hd3, Hs1, Hs3, Hinf.
    exists (self w :: ds), tw'.
    split. { simpl. rewrite Hrun, Hrest. reflexivity. }
    split. { simpl. now rewrite Hlen. }
    split. { now rewrite Htg'. }
    split. { now apply Qcle_trans with (Tween.duration (tween w)). }
    split. { now apply Qcle_trans with (Tween.startDelay (tween w)). }
    split.
    { constructor; [ | exact Hall ]. split.
      - now apply Qcle_trans with (Tween.duration (tween w)).
      - now apply Qcle_trans with (Tween.startDelay (tween w)). }
    split.
    { destruct Hd3' as [E | E]; [ | right; now apply Exists_cons_tl ].
      destruct Hd3 as [E' | E']; [ left; congruence | ].
      right. apply Exists_cons_hd. congruence. }
    split.
    { destruct Hs3' as [E | E]; [ | right; now apply Exists_cons_tl ].
      destruct Hs3 as [E' | E']; [ left; congruence | ].
      right. apply Exists_cons_hd. congruence. }
    rewrite Hinf', Hinf. simpl. now rewrite orb_assoc.
Qed.

(** ** When [onRepeat] raises *)

Lemma toggle_result pick e w :
  call_toggle pick e w =
    match getTarget w with
    | None => TypeError
    | Some t =>
        match pick t with
        | None => TypeError
        | Some f =>
            Ok (emit (e (targetIndex (self w)))
                  (on_tween
                     (fun tw => Tween.set_targets
                        (<[targetIndex (self w) :=
                             Target.set_props (f (Target.props t)) t]>
                           (Tween.targets tw)) tw) w))
        end
    end.
Proof. reflexivity. Qed.

(** X7. [onRepeat] raises exactly in these cases: a flip is requested and
    the target is missing or lacks the toggle; or the call is a repeat (not
    a yoyo bounce) with a positive repeat delay on a property other than
    ["texture"] and the target is missing. In particular a unit without
    flips can bounce, and repeat without delay, with no target at all. *)
Theorem onRepeat_raises diff setStart isYoyo w :
  onRepeat diff setStart isYoyo w = TypeError <->
  (flipX (self w) && lacks Target.toggleFlipX w)
  || (flipY (self w) && lacks Target.toggleFlipY w)
  || (negb isYoyo && num_ltb 0 (repeatDelay (self w))
      && negb (String.eqb (key (self w)) "texture") && negb (has_target w))
  = true.
Proof.
  destruct w as [d tw tr]. destruct_unit d.
  unfold lacks, has_target, getTarget. simpl.
  unfold onRepeat, when, cond, andThen, step, skip, setPlayingBackwardState,
    setPlayingForwardState, setRepeatState, enter, dispatchEvent, write_target.
  simpl. rewrite !toggle_result. unfold getTarget. simpl.
  destruct (negb (ky =? "texture")%string) eqn:Hk;
  destruct (num_ltb 0 rd) eqn:Hrd;
  destruct (Tween.targets tw !! ti) as [t|] eqn:Ht.
  all: try assert (Hlt : (ti < length (Tween.targets tw))%nat)
         by (eapply lookup_lt_Some; exact Ht).
  all: try (destruct (Target.toggleFlipX t) as [f|] eqn:Hx;
            destruct (Target.toggleFlipY t) as [g|] eqn:Hy).
  all: destruct fx, fy, isYoyo, setStart.
  all: repeat (progress
         (simpl;
          rewrite ?toggle_result; unfold getTarget;
          rewrite ?list_lookup_insert_eq by (rewrite ?length_insert; exact Hlt);
          rewrite ?Ht, ?Hx, ?Hy, ?Hrd, ?Hk)).
  all: split; intros H; first [ discriminate H | reflexivity ].
Qed.

Lemma onRepeat_raises_witness :
  onRepeat (Q2Qc 10) true false
    (mkWorld x_unit (Tween.mk [] 0 0 0 false) []) = TypeError /\
  onRepeat (Q2Qc 10) true true
    (mkWorld x_unit (Tween.mk [] 0 0 0 false) []) <> TypeError.
Proof.
  split.
  - apply (onRepeat_raises (Q2Qc 10) true false
             (mkWorld x_unit (Tween.mk [] 0 0 0 false) [])).
    reflexivity.
  - intros H.
    apply (onRepeat_raises (Q2Qc 10) true true
             (mkWorld x_unit (Tween.mk [] 0 0 0 false) [])) in H.
    discriminate H.
Defined.

(** ** Writing to the target *)

(** X8. [setTargetValue] raises exactly when the unit's target is missing.
    Otherwise it stores the given value (the unit's [current] value when
    the argument is omitted) under the unit's key, where it can be read
    back, and changes nothing else: no other property of the target, no
    other target, not the unit, not the trace. *)
Theorem setTargetValue_frame value w :
  (setTargetValue value w = TypeError <-> getTarget w = None) /\
  forall w',
    setTargetValue value w = Ok w' ->
    let v := match value with None => current (self w) | Some v => v end in
    self w' = self w /\ trace w' = trace w /\
    target_prop (key (self w)) w' = Some v /\
    (forall k, k <> key (self w) -> target_prop k w' = target_prop k w) /\
    (forall i, i <> targetIndex (self w) ->
       Tween.targets (tween w') !! i = Tween.targets (tween w) !! i) /\
    length (Tween.targets (tween w')) = length (Tween.targets (tween w)) /\
    Tween.duration (tween w') = Tween.duration (tween w) /\
    Tween.startDelay (tween w') = Tween.startDelay (tween w) /\
    Tween.isInfinite (tween w') = Tween.isInfinite (tween w).
Proof.
  unfold setTargetValue, write_target, target_prop, getTarget.
  destruct (Tween.targets (tween w) !! targetIndex (self w)) as [t|] eqn:Ht.
  - split; [ split; discriminate | ].
    intros w' [= <-]. simpl.
    assert (Hlt : (targetIndex (self w) < length (Tween.targets (tween w)))%nat)
      by (eapply lookup_lt_Some; exact Ht).
    split; [ reflexivity | ]. split; [ reflexivity | ].
    rewrite list_lookup_insert_eq by exact Hlt. simpl.
    split; [ apply lookup_insert_eq | ].
    split; [ intros k Hk; rewrite lookup_insert_ne by congruence; reflexivity | ].
    split; [ intros i Hi; apply list_lookup_insert_ne; congruence | ].
    split; [ apply length_insert | ].
    destruct (tween w). repeat split.
  - split; [ split; reflexivity | ]. intros w' H. discriminate H.
Qed.

Lemma setTargetValue_frame_witness :
  exists w',
    setTargetValue (Some (Q2Qc 42)) x_world = Ok w' /\
    target_prop "x" w' = Some (Q2Qc 42) /\
    target_prop "y" w' = target_prop "y" x_world.
Proof.
  destruct (setTargetValue_frame (Some (Q2Qc 42)) x_world) as (_ & H).
  eexists.
  assert (Hrun : setTargetValue (Some (Q2Qc 42)) x_world = Ok _)
    by (vm_compute; reflexivity).
  destruct (H _ Hrun) as (_ & _ & Hx & Hothers & _).
  split; [ exact Hrun | ]. split; [ exact Hx | ].
  apply Hothers. discriminate.
Defined.

(** ** Flips *)

(** X9. Every call of [onRepeat] that returns has called the target's
    [toggleFlipX] exactly once if [flipX] is set and not at all otherwise,
    and likewise [toggleFlipY] for [flipY], the horizontal toggle first;
    this holds on the yoyo, the repeat and the repeat-delay branch
    alike. *)
Theorem onRepeat_toggles diff setStart isYoyo w w' :
  onRepeat diff setStart isYoyo w = Ok w' ->
  exists new,
    trace w' = new ++ trace w /\
    toggled new =
      (if flipY (self w) then [ToggleFlipY (targetIndex (self w))] else []) ++
      (if flipX (self w) then [ToggleFlipX (targetIndex (self w))] else []).
Proof.
  run_action w.
  all: new_effects; reflexivity.
Qed.

Lemma onRepeat_toggles_witness :
  exists w' new,
    onRepeat (Q2Qc 10) true true
      (mkWorld (initialize 0 (const_resolver 0) (Q2Qc 100) true 0 1 0 true true
                  (extension_for "x" 0 (Q2Qc 100)))
         (fresh_tween (flipping_target "x" 0)) []) = Ok w' /\
    trace w' = new ++ [] /\
    toggled new = [ToggleFlipY 0%nat; ToggleFlipX 0%nat].
Proof.
  eexists.
  assert (Hrun : onRepeat (Q2Qc 10) true true
      (mkWorld (initialize 0 (const_resolver 0) (Q2Qc 100) true 0 1 0 true true
                  (extension_for "x" 0 (Q2Qc 100)))
         (fresh_tween (flipping_target "x" 0)) []) = Ok _)
    by (vm_compute; reflexivity).
  destruct (onRepeat_toggles _ _ _ _ _ Hrun) as (new & Htr & Htog).
  exists new. split; [ exact Hrun | ]. split; [ exact Htr | exact Htog ].
Defined.

(** ** Re-resolving the start and end values *)

(** X10. For a unit without flips, a call of [onRepeat] that returns has
    re-resolved [start] through [getStartValue] (with the old [start] as
    the value argument) exactly when the key is not ["texture"] and
    [setStart] or [isYoyo] is set, and has re-resolved [end] through
    [getEndValue], with the new [start] as the value argument, exactly when
    the key is not ["texture"] and the call is not a yoyo bounce. *)
Theorem onRepeat_resolves diff setStart isYoyo w w' :
  flipX (self w) = false -> flipY (self w) = false ->
  onRepeat diff setStart isYoyo w = Ok w' ->
  let isTweenData := negb (String.eqb (key (self w)) "texture") in
  let start' :=
    if isTweenData && (setStart || isYoyo)
    then resolve getStartValue (start (self w)) w
    else start (self w) in
  start (self w') = start' /\
  end_ (self w') =
    (if isTweenData && negb isYoyo
     then getEndValue (self w) (getTarget w) (key (self w)) start'
            (targetIndex (self w)) (Tween.totalTargets (tween w)) (tween w)
     else end_ (self w)).
Proof.
  destruct w as [d tw tr]. destruct_unit d. simpl. intros -> ->.
  unfold onRepeat, when, cond, andThen, step, skip, setPlayingBackwardState,
    setPlayingForwardState, setRepeatState, enter, dispatchEvent, write_target,
    resolve, getTarget.
  simpl.
  destruct (negb (ky =? "texture")%string) eqn:Hk, setStart, isYoyo; simpl;
    try (intros [= <-]; split; reflexivity).
  all: destruct (num_ltb 0 rd) eqn:Hrd; simpl; rewrite ?Hrd; simpl;
    try (intros [= <-]; split; reflexivity).
  all: destruct (Tween.targets tw !! ti) as [t|] eqn:Ht; simpl;
    try (intros H; discriminate H);
    intros [= <-]; split; reflexivity.
Qed.

Lemma onRepeat_resolves_witness :
  exists w',
    onRepeat (Q2Qc 10) true false x_world = Ok w' /\
    start (self w') = Q2Qc 3 /\ end_ (self w') = Q2Qc 9.
Proof.
  eexists.
  assert (Hrun : onRepeat (Q2Qc 10) true false x_world = Ok _)
    by (vm_compute; reflexivity).
  pose proof (fun H1 H2 => onRepeat_resolves (Q2Qc 10) true false x_world _ H1 H2 Hrun)
    as H.
  destruct (H eq_refl eq_refl) as (Hs & He).
  split; [ exact Hrun | ]. split; [ exact Hs | exact He ].
Defined.

(** ** The carried progress *)

Lemma quotient_bounds (diff dur : Num) :
  0 < dur ->
  (0 <= diff -> 0 <= diff / dur) /\
  (diff < dur -> diff / dur < 1) /\
  (dur <= diff -> 1 <= diff / dur).
Proof.
  intros Hpos.
  assert (Hne : dur <> 0).
  { intros E. rewrite E in Hpos. discriminate Hpos. }
  assert (Hq : diff / dur * dur = diff) by (field; exact Hne).
  split; [ | split ].
  - intros H. apply (Qcmult_lt_0_le_reg_r _ _ dur Hpos).
    rewrite Hq. ring_simplify. exact H.
  - intros H. apply Qcnot_le_lt. intros Hge.
    apply (Qcmult_le_compat_r _ _ dur) in Hge; [ | now apply Qclt_le_weak ].
    rewrite Hq, Qcmult_1_l in Hge. now apply Qcle_not_lt in Hge.
  - intros H. apply (Qcmult_lt_0_le_reg_r _ _ dur Hpos).
    rewrite Hq, Qcmult_1_l. exact H.
Qed.

(** X11. [onRepeat] stores the quotient [diff / duration] in [progress]
    without clamping it: for a unit with a positive duration the stored
    progress is non-negative when the overshoot is, below 1 when the
    overshoot is shorter than one pass, and at least 1 when the overshoot
    spans a whole pass or more. *)
Theorem onRepeat_progress_bounds diff setStart isYoyo w w' :
  0 < duration (self w) ->
  onRepeat diff setStart isYoyo w = Ok w' ->
  (0 <= diff -> 0 <= progress (self w')) /\
  (diff < duration (self w) -> progress (self w') < 1) /\
  (duration (self w) <= diff -> 1 <= progress (self w')).
Proof.
  intros Hpos Hrun. apply onRepeat_returns in Hrun.
  destruct Hrun as (_ & -> & _). now apply quotient_bounds.
Qed.

Lemma onRepeat_progress_bounds_witness :
  exists w',
    onRepeat (Q2Qc 250) true true x_world = Ok w' /\
    1 <= progress (self w').
Proof.
  eexists.
  assert (Hrun : onRepeat (Q2Qc 250) true true x_world = Ok _)
    by (vm_compute; reflexivity).
  pose proof (fun Hp => onRepeat_progress_bounds (Q2Qc 250) true true x_world _ Hp Hrun)
    as H.
  destruct (H eq_refl) as (_ & _ & Hge).
  split; [ exact Hrun | ]. apply Hge. discriminate.
Defined.

(** ** What [onRepeat] and the end policies leave alone *)

Lemma onRepeat_frame diff setStart isYoyo w w' :
  onRepeat diff setStart isYoyo w = Ok w' ->
  (forall i, i <> targetIndex (self w) ->
     Tween.targets (tween w') !! i = Tween.targets (tween w) !! i) /\
  length (Tween.targets (tween w')) = length (Tween.targets (tween w)) /\
  Tween.totalTargets (tween w') = Tween.totalTargets (tween w) /\
  Tween.duration (tween w') = Tween.duration (tween w) /\
  Tween.startDelay (tween w') = Tween.startDelay (tween w) /\
  Tween.isInfinite (tween w') = Tween.isInfinite (tween w).
Proof.
  run_action w.
  all: match goal with
       | tw : Tween.t |- _ => destruct tw as [tg tt du sd inf]; simpl in *
       end.
  all: split; [ intros i Hi; rewrite ?list_lookup_insert_ne by congruence;
                reflexivity | ].
  all: rewrite ?length_insert; repeat split.
Qed.

(** X12. [onRepeat] and the two end policies act on the unit's own target
    only: every other target of the tween stays as it is, the number of
    targets does not change, and the tween's [totalTargets], [duration],
    [startDelay] and [isInfinite] are not written. *)
Theorem end_policies_frame diff w w' :
  setStateFromEnd diff w = Ok w' \/ setStateFromStart diff w = Ok w' \/
  (exists setStart isYoyo, onRepeat diff setStart isYoyo w = Ok w') ->
  (forall i, i <> targetIndex (self w) ->
     Tween.targets (tween w') !! i = Tween.targets (tween w) !! i) /\
  length (Tween.targets (tween w')) = length (Tween.targets (tween w)) /\
  Tween.totalTargets (tween w') = Tween.totalTargets (tween w) /\
  Tween.duration (tween w') = Tween.duration (tween w) /\
  Tween.startDelay (tween w') = Tween.startDelay (tween w) /\
  Tween.isInfinite (tween w') = Tween.isInfinite (tween w).
Proof.
  assert (Hdone : tween w' = tween w ->
    (forall i, i <> targetIndex (self w) ->
       Tween.targets (tween w') !! i = Tween.targets (tween w) !! i) /\
    length (Tween.targets (tween w')) = length (Tween.targets (tween w)) /\
    Tween.totalTargets (tween w') = Tween.totalTargets (tween w) /\
    Tween.duration (tween w') = Tween.duration (tween w) /\
    Tween.startDelay (tween w') = Tween.startDelay (tween w) /\
    Tween.isInfinite (tween w') = Tween.isInfinite (tween w)).
  { intros ->. repeat split. }
  intros [H | [H | (ss & iy & H)]].
  - apply setStateFromEnd_returns in H.
    destruct (yoyo (self w)); [ exact (onRepeat_frame _ _ _ _ _ H) | ].
    destruct (num_ltb 0 (repeatCounter (self w)));
      [ exact (onRepeat_frame _ _ _ _ _ H) | ].
    apply Hdone. apply H.
  - apply setStateFromStart_returns in H.
    destruct (num_ltb 0 (repeatCounter (self w)));
      [ exact (onRepeat_frame _ _ _ _ _ H) | ].
    apply Hdone. apply H.
  - exact (onRepeat_frame _ _ _ _ _ H).
Qed.

Lemma end_policies_frame_witness :
  exists w',
    setStateFromEnd (Q2Qc 10) x_world = Ok w' /\
    Tween.duration (tween w') = Tween.duration (tween x_world) /\
    length (Tween.targets (tween w')) = length (Tween.targets (tween x_world)).
Proof.
  eexists.
  assert (Hrun : setStateFromEnd (Q2Qc 10) x_world = Ok _)
    by (vm_compute; reflexivity).
  destruct (end_policies_frame (Q2Qc 10) x_world _ (or_introl Hrun))
    as (_ & Hlen & _ & Hdur & _).
  split; [ exact Hrun | ]. split; [ exact Hdur | exact Hlen ].
Defined.
